(** * leaven: lowering of LLVM IR instructions to Go statements

    Shallow embedding of [GetElementPtr] (expression.go) and
    [TranslateInstruction] (instructions.go), followed by the properties of
    the two translations that the specification states. *)

From Stdlib Require Import String Ascii List ZArith Lia Bool DecimalString.
Import ListNotations.
Open Scope string_scope.

(** ** Go values used by the translator *)

(** A Go [error], identified with the text of its [Error()] method (which is
    what the verb %v prints). *)
Definition error := string.

(** What a call of a Go function with signature [(string, error)] does: it
    returns its pair of results, or it panics on a slice access [a[i]] with
    [i] outside [0 <= i < len(a)]. *)
Inductive outcome :=
| Return (text : string) (err : option error)
| Panic (index : Z) (len : nat).

(** [a[i]] on a slice, [None] standing for the run-time panic. *)
Definition slice_index {A : Type} (a : list A) (i : Z) : option A :=
  if (i <? 0)%Z then None else nth_error a (Z.to_nat i).

(** The verb %d (and %v) on integers. *)
Definition string_of_Z (z : Z) : string := NilZero.string_of_int (Z.to_int z).
Definition string_of_N (n : N) : string := NilZero.string_of_uint (N.to_uint n).
Definition string_of_nat (n : nat) : string := NilZero.string_of_uint (Nat.to_uint n).

(** [strings.Join]. *)
Fixpoint Join (elems : list string) (sep : string) : string :=
  match elems with
  | [] => ""
  | [e] => e
  | e :: rest => e ++ sep ++ Join rest sep
  end.

(** math/big: the methods [Sign] and [Int64] of [Int]; the latter keeps the low 64
    bits of the magnitude, reinterprets them as an int64 and negates that for
    a negative number, all with wrap-around. *)
Module big.

Definition Sign (x : Z) : Z := Z.sgn x.

Definition wrap64 (z : Z) : Z := ((z + 2 ^ 63) mod 2 ^ 64 - 2 ^ 63)%Z.

Definition Int64 (x : Z) : Z :=
  let v := wrap64 (Z.abs x mod 2 ^ 64) in
  if (x <? 0)%Z then wrap64 (- v) else v.

End big.

(** ** The IR data model (github.com/llir/llvm) *)

Set Warnings "-register-all".

Module types.

(** [types.Type]: the variants the translator inspects, and one constructor
    for every other implementation, carrying its Go type name. *)
Inductive Typ :=
| IntType (BitSize : N)
| PointerType (ElemType : Typ)
| ArrayType (Len : N) (ElemType : Typ)
| StructType (Fields : list Typ)
| VoidType
| OtherType (GoName : string).

(** [types.Void]. *)
Definition Void : Typ := VoidType.

(** [types.Equal]: structural equality of types. *)
Fixpoint Equal (t u : Typ) : bool :=
  match t, u with
  | IntType a, IntType b => N.eqb a b
  | PointerType a, PointerType b => Equal a b
  | ArrayType n a, ArrayType m b => N.eqb n m && Equal a b
  | StructType fs, StructType gs =>
      (fix fields (fs gs : list Typ) {struct fs} : bool :=
         match fs, gs with
         | [], [] => true
         | f :: fs', g :: gs' => Equal f g && fields fs' gs'
         | _, _ => false
         end) fs gs
  | VoidType, VoidType => true
  | OtherType a, OtherType b => String.eqb a b
  | _, _ => false
  end.

(** The verb %T on a [types.Type]. *)
Definition GoTypeName (t : Typ) : string :=
  match t with
  | IntType _ => "*types.IntType"
  | PointerType _ => "*types.PointerType"
  | ArrayType _ _ => "*types.ArrayType"
  | StructType _ => "*types.StructType"
  | VoidType => "*types.VoidType"
  | OtherType name => name
  end.

End types.

Module value.

(** [value.Value]: a [*constant.Int] (bit size of its type, and its
    arbitrary-precision value [X]), or any other value with its static
    type. *)
Inductive Value :=
| constant_Int (BitSize : N) (X : Z)
| other (Typ : types.Typ) (ident : string).

(** The method [Type()]. *)
Definition Type_ (v : Value) : types.Typ :=
  match v with
  | constant_Int bits _ => types.IntType bits
  | other t _ => t
  end.

End value.

Module enum.

(** [enum.IPred], a uint8 with ten named values. *)
Inductive IPred :=
| IPredEQ | IPredNE
| IPredSGE | IPredSGT | IPredSLE | IPredSLT
| IPredUGE | IPredUGT | IPredULE | IPredULT
| IPredUnknown (code : N).

End enum.

Module ir.

(** [ir.Instruction]: the kinds of the type switch with the fields the
    translator reads, and one constructor for every other kind, carrying its
    Go type name. *)
Inductive Instruction :=
| InstAdd (X Y : value.Value)
| InstAlloca (ElemType : types.Typ) (NElems : option value.Value)
| InstAnd (X Y : value.Value)
| InstBitCast (From : value.Value) (To : types.Typ)
| InstCall (Typ : types.Typ) (Callee : value.Value) (Args : list value.Value)
| InstGetElementPtr (ElemType : types.Typ) (Src : value.Value)
    (Indices : list value.Value)
| InstICmp (Pred : enum.IPred) (X Y : value.Value)
| InstLoad (Src : value.Value)
| InstLShr (Typ : types.Typ) (X Y : value.Value)
| InstMul (X Y : value.Value)
| InstOr (X Y : value.Value)
| InstPtrToInt (From : value.Value) (To : types.Typ)
| InstSelect (Cond X Y : value.Value)
| InstSExt (From : value.Value) (To : types.Typ)
| InstShl (X Y : value.Value)
| InstStore (Src Dst : value.Value)
| InstSub (X Y : value.Value)
| InstTrunc (From : value.Value) (To : types.Typ)
| InstZExt (From : value.Value) (To : types.Typ)
| InstOther (GoName : string).

End ir.

Import types value enum ir.

(** ** Collaborators

    The renderers of values and types, the name service and the [String()]
    methods of the IR live outside the two translated files; the translation
    is parameterised by them. *)
Class Collaborators := {
  FormatValue : Value -> string * option error;
  FormatSigned : Value -> string * option error;
  FormatUnsigned : Value -> string * option error;
  TypeSpec : Typ -> string * option error;
  VariableName : Instruction -> string;
  (** %v on a value, a type and a predicate; [strconv.Quote] for %q *)
  Value_String : Value -> string;
  Type_String : Typ -> string;
  IPred_String : IPred -> string;
  Quote : string -> string
}.

(** [x, err := c; if err != nil { return "", fmt.Errorf(msg, err) }; k] *)
Notation "'attempt' x '<-' c 'orelse' msg ';' k" :=
  (match c with
   | (x, None) => k
   | (_, Some err) => Return "" (Some (msg err))
   end)
  (at level 10, x name, c at level 100, msg at level 100, k at level 200,
   only parsing).

Section Translation.

Context {C : Collaborators}.

(** ** expression.go *)

(** The loop [for _, index := range indices[1:]] of [GetElementPtr], on the
    variables it updates; [inr] is a [return] (or a panic) from inside the
    loop. *)
Fixpoint GetElementPtr_loop (indices : list Value) (result : string)
    (currentType : Typ) (takeAddress : bool) : (string * bool) + outcome :=
  match indices with
  | [] => inl (result, takeAddress)
  | index :: indices' =>
      match currentType with
      | ArrayType _ ElemType =>
          match FormatValue index with
          | (_, Some err) =>
              inr (Return "" (Some ("error translating index ("
                     ++ Value_String index ++ "): " ++ err)))
          | (v, None) =>
              GetElementPtr_loop indices' (result ++ "[" ++ v ++ "]")
                ElemType true
          end
      | StructType Fields =>
          match index with
          | constant_Int _ X =>
              let result := result ++ ".f" ++ string_of_Z X in
              match slice_index Fields (big.Int64 X) with
              | None => inr (Panic (big.Int64 X) (length Fields))
              | Some field => GetElementPtr_loop indices' result field true
              end
          | _ =>
              inr (Return "" (Some ("non-constant index into struct: "
                     ++ Value_String index)))
          end
      | _ =>
          inr (Return "" (Some ("unsupported type to index into: "
                 ++ Type_String currentType)))
      end
  end.

(** [GetElementPtr] translates a getelementptr expression. *)
Definition GetElementPtr (elemType : Typ) (src : Value)
    (indices : list Value) : outcome :=
  match Type_ src with
  | PointerType srcElemType =>
      if negb (Equal srcElemType elemType) then
        Return "" (Some "mismatched source and element types")
      else
        match indices with
        | [] => Panic 0 0
        | index0 :: indices' =>
            let zeroFirstIndex :=
              match index0 with
              | constant_Int _ X => (big.Sign X =? 0)%Z
              | _ => false
              end in
            let positiveFirstIndex :=
              match index0 with
              | constant_Int _ X => (big.Sign X =? 1)%Z
              | _ => false
              end in
            let walk (result : string) :=
              match GetElementPtr_loop indices' result elemType false with
              | inl (result, takeAddress) =>
                  Return (if takeAddress then "&" ++ result else result) None
              | inr o => o
              end in
            attempt source <- FormatValue src
              orelse (fun err => "error translating source pointer ("
                        ++ Quote (Value_String src) ++ "): " ++ err);
            if negb zeroFirstIndex then
              attempt firstIndex <- FormatValue index0
                orelse (fun err => "error translating first index ("
                          ++ Value_String index0 ++ "): " ++ err);
              attempt et <- TypeSpec elemType
                orelse (fun err => "error translating element type ("
                          ++ Type_String elemType ++ "): " ++ err);
              let offset := "uintptr(int64(" ++ firstIndex
                              ++ ")) * unsafe.Sizeof(*(*" ++ et ++ ")(nil))" in
              let offset :=
                if positiveFirstIndex
                then firstIndex ++ " * unsafe.Sizeof(*(*" ++ et ++ ")(nil))"
                else offset in
              let result := "uintptr(unsafe.Pointer(" ++ source ++ ")) + "
                              ++ offset in
              let result := "(*" ++ et ++ ")(unsafe.Pointer(" ++ result ++ "))" in
              walk result
            else walk source
        end
  | t => Return "" (Some ("non-pointer source parameter: " ++ Type_String t))
  end.

(** ** instructions.go *)

(** The loop [for i, a := range inst.Args] of the call case, from position
    [i] on: the rendered arguments, or the [return] taken inside the loop. *)
Fixpoint TranslateInstruction_args (i : nat) (Args : list Value)
    : list string + outcome :=
  match Args with
  | [] => inl []
  | a :: Args' =>
      match FormatValue a with
      | (_, Some err) =>
          inr (Return "" (Some ("error translating argument "
                 ++ string_of_nat i ++ " (" ++ Value_String a ++ "): " ++ err)))
      | (v, None) =>
          match TranslateInstruction_args (S i) Args' with
          | inl args => inl (v :: args)
          | inr o => inr o
          end
      end
  end.

(** The loop [for _, index := range inst.Indices[1:]] of the getelementptr
    case. *)
Fixpoint TranslateInstruction_loop (indices : list Value) (result : string)
    (currentType : Typ) (takeAddress : bool) : (string * bool) + outcome :=
  match indices with
  | [] => inl (result, takeAddress)
  | index :: indices' =>
      match currentType with
      | ArrayType _ ElemType =>
          match FormatValue index with
          | (_, Some err) =>
              inr (Return "" (Some ("error translating index ("
                     ++ Value_String index ++ "): " ++ err)))
          | (v, None) =>
              TranslateInstruction_loop indices' (result ++ "[" ++ v ++ "]")
                ElemType true
          end
      | StructType Fields =>
          match index with
          | constant_Int _ X =>
              let result := result ++ ".f" ++ string_of_Z X in
              match slice_index Fields (big.Int64 X) with
              | None => inr (Panic (big.Int64 X) (length Fields))
              | Some field =>
                  TranslateInstruction_loop indices' result field true
              end
          | _ =>
              inr (Return "" (Some ("non-constant index into struct: "
                     ++ Value_String index)))
          end
      | _ =>
          inr (Return "" (Some ("unsupported type to index into: "
                 ++ Type_String currentType)))
      end
  end.

(** [fmt.Errorf("error translating left operand (%v): %v", v, err)] and
    [fmt.Errorf("error translating right operand (%v): %v", v, err)]. *)
Definition left_operand (v : Value) (err : error) : error :=
  "error translating left operand (" ++ Value_String v ++ "): " ++ err.

Definition right_operand (v : Value) (err : error) : error :=
  "error translating right operand (" ++ Value_String v ++ "): " ++ err.

(** [TranslateInstruction] translates an LLVM instruction to Go. *)
Definition TranslateInstruction (inst : Instruction) : outcome :=
  match inst with
  | InstAdd X Y =>
      attempt x <- FormatValue X orelse left_operand X;
      attempt y <- FormatValue Y orelse right_operand X;
      Return (VariableName inst ++ " = " ++ x ++ " + " ++ y) None

  | InstAlloca ElemType NElems =>
      attempt t <- TypeSpec ElemType
        orelse (fun err => "error translating type ("
                  ++ Type_String ElemType ++ "): " ++ err);
      match NElems with
      | None => Return (VariableName inst ++ " = new(" ++ t ++ ")") None
      | Some n =>
          attempt nElems <- FormatValue n
            orelse (fun err => "error translating NElems ("
                      ++ Value_String n ++ "): " ++ err);
          Return (VariableName inst ++ " = &make([]" ++ t ++ ", " ++ nElems
                    ++ ")[0]") None
      end

  | InstAnd X Y =>
      attempt x <- FormatValue X orelse left_operand X;
      attempt y <- FormatValue Y orelse right_operand X;
      Return (VariableName inst ++ " = " ++ x ++ " & " ++ y) None

  | InstBitCast From To =>
      attempt from <- FormatValue From
        orelse (fun err => "error translating source ("
                  ++ Value_String From ++ "): " ++ err);
      attempt to <- TypeSpec To
        orelse (fun err => "error translating type ("
                  ++ Type_String To ++ "): " ++ err);
      Return (VariableName inst ++ " = (" ++ to ++ ")(unsafe.Pointer("
                ++ from ++ "))") None

  | InstCall Typ Callee Args =>
      attempt callee <- FormatValue Callee
        orelse (fun err => "error translating callee ("
                  ++ Value_String Callee ++ "): " ++ err);
      if (callee =? "llvm.lifetime.start") || (callee =? "llvm.lifetime.end")
      then Return "" None
      else if callee =? "llvm.objectsize.i64.p0i8"
      then Return (VariableName inst ++ " = -1") None
      else
        match TranslateInstruction_args 0 Args with
        | inr o => o
        | inl args =>
            if Equal Typ Void
            then Return (callee ++ "(" ++ Join args ", " ++ ")") None
            else Return (VariableName inst ++ " = " ++ callee ++ "("
                           ++ Join args ", " ++ ")") None
        end

  | InstGetElementPtr ElemType Src Indices =>
      match Type_ Src with
      | PointerType srcElemType =>
          if negb (Equal srcElemType ElemType) then
            Return "" (Some "mismatched source and element types")
          else
            match Indices with
            | [] => Panic 0 0
            | index0 :: indices' =>
                let zeroFirstIndex :=
                  match index0 with
                  | constant_Int _ X => (big.Sign X =? 0)%Z
                  | _ => false
                  end in
                let positiveFirstIndex :=
                  match index0 with
                  | constant_Int _ X => (big.Sign X =? 1)%Z
                  | _ => false
                  end in
                let walk (result : string) :=
                  match TranslateInstruction_loop indices' result ElemType
                          false with
                  | inl (result, takeAddress) =>
                      if takeAddress
                      then Return (VariableName inst ++ " = &" ++ result) None
                      else Return (VariableName inst ++ " = " ++ result) None
                  | inr o => o
                  end in
                attempt source <- FormatValue Src
                  orelse (fun err => "error translating source pointer ("
                            ++ Quote (Value_String Src) ++ "): " ++ err);
                if negb zeroFirstIndex then
                  attempt firstIndex <- FormatValue index0
                    orelse (fun err => "error translating first index ("
                              ++ Value_String index0 ++ "): " ++ err);
                  attempt elemType <- TypeSpec ElemType
                    orelse (fun err => "error translating element type ("
                              ++ Type_String ElemType ++ "): " ++ err);
                  let offset := "uintptr(int64(" ++ firstIndex
                                  ++ ")) * unsafe.Sizeof(*(*" ++ elemType
                                  ++ ")(nil))" in
                  let offset :=
                    if positiveFirstIndex
                    then firstIndex ++ " * unsafe.Sizeof(*(*" ++ elemType
                           ++ ")(nil))"
                    else offset in
                  let result := "uintptr(unsafe.Pointer(" ++ source ++ ")) + "
                                  ++ offset in
                  let result := "(*" ++ elemType ++ ")(unsafe.Pointer("
                                  ++ result ++ "))" in
                  walk result
                else walk source
            end
      | t =>
          Return "" (Some ("non-pointer source parameter: " ++ Type_String t))
      end

  | InstICmp Pred X Y =>
      let selected :=
        match Pred with
        | IPredEQ => Some ("==", FormatValue)
        | IPredNE => Some ("!=", FormatValue)
        | IPredSGE => Some (">=", FormatSigned)
        | IPredSGT => Some (">", FormatSigned)
        | IPredSLE => Some ("<=", FormatSigned)
        | IPredSLT => Some ("<", FormatSigned)
        | IPredUGE => Some (">=", FormatUnsigned)
        | IPredUGT => Some (">", FormatUnsigned)
        | IPredULE => Some ("<=", FormatUnsigned)
        | IPredULT => Some ("<", FormatUnsigned)
        | IPredUnknown _ => None
        end in
      match selected with
      | None =>
          Return "" (Some ("unsupported comparison predicate: "
                             ++ IPred_String Pred))
      | Some (op, format) =>
          attempt x <- format X orelse left_operand X;
          attempt y <- format Y orelse right_operand X;
          Return (VariableName inst ++ " = " ++ x ++ " " ++ op ++ " " ++ y) None
      end

  | InstLoad Src =>
      attempt src <- FormatValue Src
        orelse (fun err => "error translating source ("
                  ++ Value_String Src ++ "): " ++ err);
      Return (VariableName inst ++ " = *" ++ src) None

  | InstLShr Typ X Y =>
      attempt x <- FormatUnsigned X orelse left_operand X;
      attempt y <- FormatUnsigned Y orelse right_operand X;
      match Typ with
      | IntType BitSize =>
          if (8 <? BitSize)%N
          then Return (VariableName inst ++ " = int" ++ string_of_N BitSize
                         ++ "(" ++ x ++ " >> " ++ y ++ ")") None
          else Return (VariableName inst ++ " = " ++ x ++ " >> " ++ y) None
      | _ => Return (VariableName inst ++ " = " ++ x ++ " >> " ++ y) None
      end

  | InstMul X Y =>
      attempt x <- FormatValue X orelse left_operand X;
      attempt y <- FormatValue Y orelse right_operand X;
      Return (VariableName inst ++ " = " ++ x ++ " * " ++ y) None

  | InstOr X Y =>
      attempt x <- FormatValue X orelse left_operand X;
      attempt y <- FormatValue Y orelse right_operand X;
      Return (VariableName inst ++ " = " ++ x ++ " | " ++ y) None

  | InstPtrToInt From To =>
      attempt from <- FormatValue From
        orelse (fun err => "error translating source ("
                  ++ Value_String From ++ "): " ++ err);
      attempt to <- TypeSpec To
        orelse (fun err => "error translating type ("
                  ++ Type_String To ++ "): " ++ err);
      Return (VariableName inst ++ " = " ++ to ++ "(uintptr(unsafe.Pointer("
                ++ from ++ ")))") None

  | InstSelect Cond X Y =>
      attempt cond <- FormatValue Cond
        orelse (fun err => "error translating condition ("
                  ++ Value_String Cond ++ "): " ++ err);
      attempt x <- FormatValue X
        orelse (fun err => "error translating first operand ("
                  ++ Value_String X ++ "): " ++ err);
      attempt y <- FormatValue Y
        orelse (fun err => "error translating second operand ("
                  ++ Value_String Y ++ "): " ++ err);
      let name := VariableName inst in
      Return ("if " ++ cond ++ " { " ++ name ++ " = " ++ x ++ " } else { "
                ++ name ++ " = " ++ y ++ " }") None

  | InstSExt From To =>
      match To with
      | IntType BitSize =>
          attempt from <- FormatSigned From
            orelse (fun err => "error translating source ("
                      ++ Value_String From ++ "): " ++ err);
          Return (VariableName inst ++ " = int" ++ string_of_N BitSize
                    ++ "(" ++ from ++ ")") None
      | _ =>
          Return "" (Some ("unsupported To type for zext: " ++ GoTypeName To))
      end

  | InstShl X Y =>
      attempt x <- FormatValue X orelse left_operand X;
      attempt y <- FormatUnsigned Y orelse right_operand X;
      Return (VariableName inst ++ " = " ++ x ++ " << " ++ y) None

  | InstStore Src Dst =>
      attempt dest <- FormatValue Dst
        orelse (fun err => "error translating destination ("
                  ++ Value_String Dst ++ "): " ++ err);
      attempt src <- FormatValue Src
        orelse (fun err => "error translating source ("
                  ++ Value_String Src ++ "): " ++ err);
      Return ("*" ++ dest ++ " = " ++ src) None

  | InstSub X Y =>
      attempt x <- FormatValue X orelse left_operand X;
      attempt y <- FormatValue Y orelse right_operand X;
      Return (VariableName inst ++ " = " ++ x ++ " - " ++ y) None

  | InstTrunc From To =>
      attempt to <- TypeSpec To
        orelse (fun err => "error translating To type ("
                  ++ Type_String To ++ "): " ++ err);
      attempt from <- FormatValue From
        orelse (fun err => "error translating source ("
                  ++ Value_String From ++ "): " ++ err);
      Return (VariableName inst ++ " = " ++ to ++ "(" ++ from ++ ")") None

  | InstZExt From To =>
      match To with
      | IntType BitSize =>
          attempt from <- FormatUnsigned From
            orelse (fun err => "error translating source ("
                      ++ Value_String From ++ "): " ++ err);
          Return (VariableName inst ++ " = int" ++ string_of_N BitSize
                    ++ "(uint" ++ string_of_N BitSize ++ "(" ++ from ++ "))")
            None
      | _ =>
          Return "" (Some ("unsupported To type for zext: " ++ GoTypeName To))
      end

  | InstOther GoName =>
      Return "" (Some ("unsupported instruction type: " ++ GoName))
  end.

End Translation.

(** ** The resolver as the specification describes it

    Section 4.2 of the specification gives the resolver the contract
    [resolve(element_type, base_pointer_value, indices) ->
    (expression-text, needs_address_of) | error]: the expression comes back
    without the address-of prefix, which the caller adds when the flag is
    set. [None] stands for an error. *)
Section Specification.

Context {C : Collaborators}.

(** Step 4: one aggregate-navigation step per remaining index. *)
Fixpoint spec_walk (indices : list Value) (running : string) (active : Typ)
    (needs_address_of : bool) : option (string * bool) :=
  match indices with
  | [] => Some (running, needs_address_of)
  | index :: indices' =>
      match active with
      | ArrayType _ elem =>
          match FormatValue index with
          | (v, None) => spec_walk indices' (running ++ "[" ++ v ++ "]") elem true
          | (_, Some _) => None
          end
      | StructType fields =>
          match index with
          | constant_Int _ K =>
              match slice_index fields K with
              | Some field =>
                  spec_walk indices' (running ++ ".f" ++ string_of_Z K) field true
              | None => None
              end
          | _ => None
          end
      | _ => None
      end
  end.

(** Steps 1 to 3: the running expression after index 0. *)
Definition spec_first (element_type : Typ) (base : Value) (index0 : Value)
    : option string :=
  match FormatValue base with
  | (_, Some _) => None
  | (source, None) =>
      match index0 with
      | constant_Int _ 0%Z => Some source
      | _ =>
          match FormatValue index0, TypeSpec element_type with
          | (i, None), (et, None) =>
              let rendered :=
                match index0 with
                | constant_Int _ (Zpos _) => i
                | _ => "uintptr(int64(" ++ i ++ "))"
                end in
              Some ("(*" ++ et ++ ")(unsafe.Pointer(uintptr(unsafe.Pointer("
                      ++ source ++ ")) + " ++ rendered
                      ++ " * unsafe.Sizeof(*(*" ++ et ++ ")(nil))))")
          | _, _ => None
          end
      end
  end.

Definition spec_resolve (element_type : Typ) (base : Value)
    (indices : list Value) : option (string * bool) :=
  match Type_ base, indices with
  | PointerType pointee, index0 :: indices' =>
      if Equal pointee element_type then
        match spec_first element_type base index0 with
        | Some running => spec_walk indices' running element_type false
        | None => None
        end
      else None
  | _, _ => None
  end.

End Specification.

(** ** A concrete set of collaborators

    Registers and globals print as their identifier, integer constants in
    decimal; values and types of a kind the translator does not know are
    refused. Used to run the translation on examples. *)
Module Sample.

Definition format (wrap : string -> string) (v : Value) : string * option error :=
  match v with
  | constant_Int _ X => (string_of_Z X, None)
  | other (OtherType _) _ => ("", Some "unsupported value")
  | other _ ident => (wrap ident, None)
  end.

Fixpoint type_spec (t : Typ) : string * option error :=
  match t with
  | IntType BitSize => ("int" ++ string_of_N BitSize, None)
  | PointerType ElemType =>
      match type_spec ElemType with
      | (e, None) => ("*" ++ e, None)
      | failed => failed
      end
  | ArrayType Len ElemType =>
      match type_spec ElemType with
      | (e, None) => ("[" ++ string_of_N Len ++ "]" ++ e, None)
      | failed => failed
      end
  | _ => ("", Some "unsupported type")
  end.

Definition value_string (v : Value) : string :=
  match v with
  | constant_Int _ X => string_of_Z X
  | other _ ident => "%" ++ ident
  end.

#[export] Instance collaborators : Collaborators := {
  FormatValue := format (fun s => s);
  FormatSigned := format (fun s => "int64(" ++ s ++ ")");
  FormatUnsigned := format (fun s => "uint64(" ++ s ++ ")");
  TypeSpec := type_spec;
  VariableName := fun _ => "v1";
  Value_String := value_string;
  Type_String := GoTypeName;
  IPred_String := fun _ => "IPred";
  Quote := fun s => "'" ++ s ++ "'"
}.

Definition i32 : Typ := IntType 32.
Definition i8 : Typ := IntType 8.
Definition vector : Typ := OtherType "*types.VectorType".
(** [[4 x i32]] and [{ i8, i32 }]. *)
Definition array4 : Typ := ArrayType 4 i32.
Definition pair : Typ := StructType [i8; i32].

(** Pointers to them, two registers, a value that does not render, and the
    callee of a lifetime hint. *)
Definition p_array : Value := other (PointerType array4) "p".
Definition p_pair : Value := other (PointerType pair) "p".
Definition p_i8 : Value := other (PointerType i8) "p".
Definition reg_x : Value := other i32 "x".
Definition reg_y : Value := other i32 "y".
Definition vec_y : Value := other vector "y".
Definition lifetime_start : Value :=
  other (PointerType (OtherType "*types.FuncType")) "llvm.lifetime.start".
Definition objectsize : Value :=
  other (PointerType (OtherType "*types.FuncType")) "llvm.objectsize.i64.p0i8".

(** An ordinary callee, a record with an array field and an array of
    arrays. *)
Definition callee_f : Value :=
  other (PointerType (OtherType "*types.FuncType")) "f".
Definition record_with_array : Typ := StructType [i8; array4].
Definition array2x4 : Typ := ArrayType 2 array4.

End Sample.

(** ** Vocabulary of the statements *)

(** The end of [GetElementPtr], from the loop on: the address-of prefix when
    [takeAddress] is set. *)
Definition finish (walked : (string * bool) + outcome) : outcome :=
  match walked with
  | inl (result, takeAddress) =>
      Return (if takeAddress then "&" ++ result else result) None
  | inr o => o
  end.

(** An expression put behind a result-name assignment; errors and panics
    are left as they are. *)
Definition assign (name : string) (o : outcome) : outcome :=
  match o with
  | Return text None => Return (name ++ " = " ++ text) None
  | failed => failed
  end.

(** The two byte offsets: the rendered index times the size of an element,
    without and with the signed cast. *)
Definition unsigned_offset (firstIndex et : string) : string :=
  firstIndex ++ " * unsafe.Sizeof(*(*" ++ et ++ ")(nil))".

Definition signed_offset (firstIndex et : string) : string :=
  "uintptr(int64(" ++ firstIndex ++ ")) * unsafe.Sizeof(*(*" ++ et ++ ")(nil))".

(** The address of the base pointer plus an offset, reinterpreted as a
    pointer to the element type. *)
Definition pointer_at (source offset et : string) : string :=
  "(*" ++ et ++ ")(unsafe.Pointer("
    ++ ("uintptr(unsafe.Pointer(" ++ source ++ ")) + " ++ offset) ++ "))".

(** The classes of the first index. *)
Definition positive_constant (index : Value) : Prop :=
  exists bits X, index = constant_Int bits X /\ (0 < X)%Z.

Definition negative_constant (index : Value) : Prop :=
  exists bits X, index = constant_Int bits X /\ (X < 0)%Z.

Definition non_constant (index : Value) : Prop :=
  forall bits X, index <> constant_Int bits X.

(** The values an int64 holds. *)
Definition int64_range (x : Z) : Prop := (- 2 ^ 63 <= x < 2 ^ 63)%Z.

(** The text of a chain of subscripts, one per rendered index. *)
Fixpoint subscripts (vs : list string) : string :=
  match vs with
  | [] => ""
  | v :: vs' => "[" ++ v ++ "]" ++ subscripts vs'
  end.

(** How many array types are nested at the top of a type. *)
Fixpoint array_depth (t : Typ) : nat :=
  match t with
  | ArrayType _ ElemType => S (array_depth ElemType)
  | _ => 0
  end.

(** The types the aggregate walk can enter. *)
Definition aggregate (t : Typ) : Prop :=
  match t with
  | ArrayType _ _ | StructType _ => True
  | _ => False
  end.

(** The three callee names that the call case treats apart. *)
Definition intrinsic (callee : string) : Prop :=
  callee = "llvm.lifetime.start" \/ callee = "llvm.lifetime.end"
  \/ callee = "llvm.objectsize.i64.p0i8".

(** [FormatValue] renders the value [a] as the text [v]. *)
Definition renders {C : Collaborators} (a : Value) (v : string) : Prop :=
  FormatValue a = (v, None).

(** The five kinds of binary arithmetic with their operators. *)
Definition binary_table : list ((Value -> Value -> Instruction) * string) :=
  [(InstAdd, "+"); (InstAnd, "&"); (InstOr, "|"); (InstMul, "*");
   (InstSub, "-")].

(** The ten named predicates of a compare with their operators and the
    renderer of their operands. *)
Definition icmp_table {C : Collaborators}
    : list (IPred * string * (Value -> string * option error)) :=
  [(IPredEQ, "==", FormatValue); (IPredNE, "!=", FormatValue);
   (IPredSGE, ">=", FormatSigned); (IPredSGT, ">", FormatSigned);
   (IPredSLE, "<=", FormatSigned); (IPredSLT, "<", FormatSigned);
   (IPredUGE, ">=", FormatUnsigned); (IPredUGT, ">", FormatUnsigned);
   (IPredULE, "<=", FormatUnsigned); (IPredULT, "<", FormatUnsigned)].

(** * Properties *)

Section Properties.

Context {C : Collaborators}.

(** ** Shared lemmas *)

(** The two copies of the aggregate walk are the same function. *)
Lemma TranslateInstruction_loop_GetElementPtr_loop :
  forall indices result currentType takeAddress,
    TranslateInstruction_loop indices result currentType takeAddress
    = GetElementPtr_loop indices result currentType takeAddress.
Proof.
  induction indices as [|index indices' IH]; intros result currentType takeAddress.
  - reflexivity.
  - destruct currentType as [bits|elem|len elem|fields| |name]; simpl.
    3: destruct (FormatValue index) as [v [err|]]; [reflexivity|apply IH].
    3: { destruct index as [bits X|t ident]; [|reflexivity].
         destruct (slice_index fields (big.Int64 X)); [apply IH|reflexivity]. }
    all: reflexivity.
Qed.

(** A walk that ends normally has set [takeAddress] exactly when it made a
    step. *)
Lemma GetElementPtr_loop_takeAddress :
  forall indices result currentType takeAddress result' takeAddress',
    GetElementPtr_loop indices result currentType takeAddress
    = inl (result', takeAddress') ->
    takeAddress' = match indices with [] => takeAddress | _ :: _ => true end.
Proof.
  induction indices as [|index indices' IH];
    intros result currentType takeAddress result' takeAddress' H.
  - simpl in H. congruence.
  - assert (Hstep : forall r t, GetElementPtr_loop indices' r t true
                                = inl (result', takeAddress') ->
                                takeAddress' = true).
    { intros r t Hr. apply IH in Hr. destruct indices'; exact Hr. }
    destruct currentType as [bits|elem|len elem|fields| |name]; simpl in H;
      try discriminate.
    + destruct (FormatValue index) as [v [err|]]; [discriminate|eauto].
    + destruct index as [bits X|t ident]; [|discriminate].
      destruct (slice_index fields (big.Int64 X)); [eauto|discriminate].
Qed.

(** A walk left early is left on an error or on a panic, never with a
    text. *)
Lemma GetElementPtr_loop_exit :
  forall indices result currentType takeAddress o,
    GetElementPtr_loop indices result currentType takeAddress = inr o ->
    (exists err, o = Return "" (Some err)) \/ (exists i n, o = Panic i n).
Proof.
  induction indices as [|index indices' IH];
    intros result currentType takeAddress o H; [discriminate|].
  destruct currentType as [bits|elem|len elem|fields| |name]; simpl in H;
    try (injection H as <-; left; eexists; reflexivity).
  - destruct (FormatValue index) as [v [err|]]; [|eauto].
    injection H as <-; left; eexists; reflexivity.
  - destruct index as [bits X|t ident].
    + destruct (slice_index fields (big.Int64 X)); [eauto|].
      injection H as <-; right; eauto.
    + injection H as <-; left; eexists; reflexivity.
Qed.

(** The getelementptr case of [TranslateInstruction] is [GetElementPtr]
    behind an assignment to the result name. *)
Lemma TranslateInstruction_InstGetElementPtr :
  forall ElemType Src Indices,
    TranslateInstruction (InstGetElementPtr ElemType Src Indices)
    = assign (VariableName (InstGetElementPtr ElemType Src Indices))
        (GetElementPtr ElemType Src Indices).
Proof.
  intros ElemType Src Indices.
  set (name := VariableName (InstGetElementPtr ElemType Src Indices)).
  assert (Hwalk : forall indices result,
    match TranslateInstruction_loop indices result ElemType false with
    | inl (result0, takeAddress) =>
        if takeAddress
        then Return (name ++ " = &" ++ result0) None
        else Return (name ++ " = " ++ result0) None
    | inr o => o
    end
    = assign name (finish (GetElementPtr_loop indices result ElemType false))).
  { intros indices result. rewrite TranslateInstruction_loop_GetElementPtr_loop.
    destruct (GetElementPtr_loop indices result ElemType false)
      as [[r [|]]|o] eqn:Hloop; try reflexivity.
    apply GetElementPtr_loop_exit in Hloop.
    destruct Hloop as [[err ->]|[i [n ->]]]; reflexivity. }
  unfold TranslateInstruction, GetElementPtr. fold name.
  destruct (Type_ Src) as [bits|srcElem|len elem|fields| |tname]; try reflexivity.
  destruct (negb (Equal srcElem ElemType)); [reflexivity|].
  destruct Indices as [|index0 indices']; [reflexivity|].
  destruct (FormatValue Src) as [source [err|]]; [reflexivity|].
  destruct (negb _).
  - destruct (FormatValue index0) as [firstIndex [err|]]; [reflexivity|].
    destruct (TypeSpec ElemType) as [et [err|]]; [reflexivity|].
    apply Hwalk.
  - apply Hwalk.
Qed.

(** [GetElementPtr] once the type check has passed and the base pointer has
    been rendered. *)
Lemma GetElementPtr_checked :
  forall elemType src pointee index0 rest source,
    Type_ src = PointerType pointee ->
    Equal pointee elemType = true ->
    FormatValue src = (source, None) ->
    GetElementPtr elemType src (index0 :: rest)
    = match index0 with
      | constant_Int _ 0%Z =>
          finish (GetElementPtr_loop rest source elemType false)
      | _ =>
          match FormatValue index0 with
          | (_, Some err) =>
              Return "" (Some ("error translating first index ("
                                 ++ Value_String index0 ++ "): " ++ err))
          | (firstIndex, None) =>
              match TypeSpec elemType with
              | (_, Some err) =>
                  Return "" (Some ("error translating element type ("
                                     ++ Type_String elemType ++ "): " ++ err))
              | (et, None) =>
                  let offset :=
                    match index0 with
                    | constant_Int _ (Zpos _) => unsigned_offset firstIndex et
                    | _ => signed_offset firstIndex et
                    end in
                  finish (GetElementPtr_loop rest
                            (pointer_at source offset et) elemType false)
              end
          end
      end.
Proof.
  intros elemType src pointee index0 rest source Hty Heq Hsrc.
  unfold GetElementPtr. rewrite Hty, Heq, Hsrc. cbn [negb]. clear Hsrc.
  destruct index0 as [bits [|x|x]|t ident]; cbn [big.Sign Z.sgn Z.eqb negb];
    try reflexivity;
    match goal with
    | |- context [FormatValue ?i] =>
        destruct (FormatValue i) as [firstIndex [err|]]; try reflexivity
    end;
    destruct (TypeSpec elemType) as [et [err'|]]; reflexivity.
Qed.

(** [big.Int64] is the identity on the values an int64 holds. *)
Lemma Int64_int64_range : forall x, int64_range x -> big.Int64 x = x.
Proof.
  intros x [Hlo Hhi]. unfold big.Int64, big.wrap64.
  change (2 ^ 63)%Z with 9223372036854775808%Z in *.
  change (2 ^ 64)%Z with 18446744073709551616%Z.
  destruct (x <? 0)%Z eqn:Hneg.
  - apply Z.ltb_lt in Hneg. rewrite (Z.abs_neq x) by lia.
    rewrite (Z.mod_small (- x)) by lia.
    destruct (Z.eq_dec x (-9223372036854775808)) as [->|Hne]; [reflexivity|].
    rewrite (Z.mod_small (- x + _)) by lia.
    replace (- (- x + 9223372036854775808 - 9223372036854775808)
             + 9223372036854775808)%Z with (x + 9223372036854775808)%Z by lia.
    rewrite Z.mod_small by lia. lia.
  - apply Z.ltb_ge in Hneg. rewrite (Z.abs_eq x) by lia.
    rewrite (Z.mod_small x) by lia. rewrite Z.mod_small by lia. lia.
Qed.

(** A slice access succeeds exactly inside the bounds. *)
Lemma slice_index_Some :
  forall (A : Type) (a : list A) (i : Z),
    (0 <= i < Z.of_nat (length a))%Z ->
    exists x, slice_index a i = Some x /\ nth_error a (Z.to_nat i) = Some x.
Proof.
  intros A a i [Hlo Hhi]. unfold slice_index.
  destruct (i <? 0)%Z eqn:Hneg; [apply Z.ltb_lt in Hneg; lia|].
  destruct (nth_error a (Z.to_nat i)) as [x|] eqn:Hnth; [eauto|].
  apply nth_error_None in Hnth. lia.
Qed.

Lemma slice_index_None :
  forall (A : Type) (a : list A) (i : Z),
    ~ (0 <= i < Z.of_nat (length a))%Z -> slice_index a i = None.
Proof.
  intros A a i Hout. unfold slice_index.
  destruct (i <? 0)%Z eqn:Hneg; [reflexivity|].
  apply Z.ltb_ge in Hneg. apply nth_error_None. lia.
Qed.

(** ** The two translations of getelementptr *)

(** C1. For every element type, base pointer and index list, the
    getelementptr case of [TranslateInstruction] returns the result name,
    " = " and the expression of [GetElementPtr] whenever [GetElementPtr]
    returns an expression; on every input on which one of the two returns an
    error the other returns that same error, and one panics exactly when the
    other does. *)
Theorem TranslateInstruction_getelementptr_agrees :
  forall ElemType Src Indices,
    TranslateInstruction (InstGetElementPtr ElemType Src Indices)
    = match GetElementPtr ElemType Src Indices with
      | Return text None =>
          Return (VariableName (InstGetElementPtr ElemType Src Indices)
                    ++ " = " ++ text) None
      | Return text (Some err) => Return text (Some err)
      | Panic index len => Panic index len
      end.
Proof.
  intros ElemType Src Indices.
  rewrite TranslateInstruction_InstGetElementPtr. unfold assign.
  destruct (GetElementPtr ElemType Src Indices) as [text [err|]|index len];
    reflexivity.
Qed.

(** ** The result of the resolver *)

(** A successful call of [GetElementPtr] has an index 0, a rendered base
    pointer, and a walk that ended normally from the running expression left
    by index 0. *)
Lemma GetElementPtr_success :
  forall elemType src indices text,
    GetElementPtr elemType src indices = Return text None ->
    exists index0 rest source running expression takeAddress,
      indices = index0 :: rest
      /\ FormatValue src = (source, None)
      /\ (running = source
          \/ exists firstIndex et,
               FormatValue index0 = (firstIndex, None)
               /\ TypeSpec elemType = (et, None)
               /\ (running = pointer_at source (unsigned_offset firstIndex et) et
                   \/ running = pointer_at source (signed_offset firstIndex et) et))
      /\ GetElementPtr_loop rest running elemType false
         = inl (expression, takeAddress)
      /\ text = (if takeAddress then "&" ++ expression else expression).
Proof.
  intros elemType src indices text H.
  destruct (Type_ src) as [bits|pointee|len elem|fields| |tname] eqn:Hty;
    try (unfold GetElementPtr in H; rewrite Hty in H; discriminate).
  destruct (Equal pointee elemType) eqn:Heq;
    [|unfold GetElementPtr in H; rewrite Hty, Heq in H; discriminate].
  destruct indices as [|index0 rest];
    [unfold GetElementPtr in H; rewrite Hty, Heq in H; discriminate|].
  destruct (FormatValue src) as [source [err|]] eqn:Hsrc;
    [unfold GetElementPtr in H; rewrite Hty, Heq, Hsrc in H; discriminate|].
  rewrite (GetElementPtr_checked _ _ _ _ _ _ Hty Heq Hsrc) in H.
  assert (Hfinish : forall running,
            finish (GetElementPtr_loop rest running elemType false)
            = Return text None ->
            exists expression takeAddress,
              GetElementPtr_loop rest running elemType false
              = inl (expression, takeAddress)
              /\ text = (if takeAddress then "&" ++ expression else expression)).
  { intros running Hf.
    destruct (GetElementPtr_loop rest running elemType false)
      as [[expression takeAddress]|o] eqn:Hloop.
    - exists expression, takeAddress. split; [reflexivity|].
      simpl in Hf. injection Hf as Hf. symmetry; exact Hf.
    - apply GetElementPtr_loop_exit in Hloop. simpl in Hf. subst o.
      destruct Hloop as [[err Herr]|[i [n Hpanic]]]; discriminate. }
  exists index0, rest, source.
  assert (Hoffset : forall offset : string -> string -> string,
            (offset = unsigned_offset \/ offset = signed_offset) ->
            match FormatValue index0 with
            | (_, Some err) =>
                Return "" (Some ("error translating first index ("
                                   ++ Value_String index0 ++ "): " ++ err))
            | (firstIndex, None) =>
                match TypeSpec elemType with
                | (_, Some err) =>
                    Return "" (Some ("error translating element type ("
                                       ++ Type_String elemType ++ "): " ++ err))
                | (et, None) =>
                    finish (GetElementPtr_loop rest
                              (pointer_at source (offset firstIndex et) et)
                              elemType false)
                end
            end = Return text None ->
            exists running expression takeAddress,
              index0 :: rest = index0 :: rest
              /\ (source, @None error) = (source, None)
              /\ (running = source
                  \/ exists firstIndex et,
                       FormatValue index0 = (firstIndex, None)
                       /\ TypeSpec elemType = (et, None)
                       /\ (running = pointer_at source (unsigned_offset firstIndex et) et
                           \/ running = pointer_at source (signed_offset firstIndex et) et))
              /\ GetElementPtr_loop rest running elemType false
                 = inl (expression, takeAddress)
              /\ text = (if takeAddress then "&" ++ expression else expression)).
  { intros offset Hoff H'.
    destruct (FormatValue index0) as [firstIndex [err|]]; [discriminate|].
    destruct (TypeSpec elemType) as [et [err|]]; [discriminate|].
    destruct (Hfinish _ H') as [expression [takeAddress [Hloop Htext]]].
    exists (pointer_at source (offset firstIndex et) et), expression, takeAddress.
    repeat split; trivial.
    right. exists firstIndex, et. repeat split.
    destruct Hoff as [->| ->]; [left|right]; reflexivity. }
  destruct index0 as [bits [|x|x]|t ident].
  - destruct (Hfinish _ H) as [expression [takeAddress [Hloop Htext]]].
    exists source, expression, takeAddress. repeat split; auto.
  - apply (Hoffset unsigned_offset); [left; reflexivity|exact H].
  - apply (Hoffset signed_offset); [right; reflexivity|exact H].
  - apply (Hoffset signed_offset); [right; reflexivity|exact H].
Qed.

(** C2 (amended). A successful call of [GetElementPtr] returns one text and
    no flag. The indices after the first make the aggregate walk, from the
    running expression that index 0 left (the rendered base pointer, or the
    pointer-offset expression); when there is at least one such index, the
    text returned is "&" followed by the expression the walk accumulated: the
    address-of prefix is applied inside [GetElementPtr]. When there is none,
    the text is the running expression itself, with no prefix. *)
Theorem GetElementPtr_applies_address_of :
  forall elemType src indices text,
    GetElementPtr elemType src indices = Return text None ->
    exists index0 rest source running expression,
      indices = index0 :: rest
      /\ FormatValue src = (source, None)
      /\ (running = source
          \/ exists firstIndex et,
               FormatValue index0 = (firstIndex, None)
               /\ TypeSpec elemType = (et, None)
               /\ (running = pointer_at source (unsigned_offset firstIndex et) et
                   \/ running = pointer_at source (signed_offset firstIndex et) et))
      /\ GetElementPtr_loop rest running elemType false
         = inl (expression, match rest with [] => false | _ :: _ => true end)
      /\ text = match rest with
                | [] => running
                | _ :: _ => "&" ++ expression
                end.
Proof.
  intros elemType src indices text H.
  destruct (GetElementPtr_success _ _ _ _ H)
    as (index0 & rest & source & running & expression & takeAddress
        & Hind & Hsrc & Hrun & Hloop & Htext).
  exists index0, rest, source, running, expression.
  pose proof (GetElementPtr_loop_takeAddress _ _ _ _ _ _ Hloop) as Hflag.
  repeat split; trivial.
  - rewrite Hloop. destruct rest; subst takeAddress; reflexivity.
  - destruct rest as [|index1 rest'].
    + simpl in Hloop. injection Hloop as <- <-. exact Htext.
    + subst takeAddress. exact Htext.
Qed.

(** ** The first index *)

(** C3. When the type check passes and the base pointer, the first index and
    the element type all render: a strictly positive constant first index
    gives the offset "index * unsafe.Sizeof(...)" with no cast, a negative
    constant or a non-constant first index gives the offset
    "uintptr(int64(index)) * unsafe.Sizeof(...)"; in both cases the walk
    starts from the address of the base pointer plus the offset, reinterpreted
    as a pointer to the element type, in [GetElementPtr] and in
    [TranslateInstruction] alike. *)
Theorem first_index_offset :
  forall elemType src pointee index0 rest source firstIndex et,
    Type_ src = PointerType pointee ->
    Equal pointee elemType = true ->
    FormatValue src = (source, None) ->
    FormatValue index0 = (firstIndex, None) ->
    TypeSpec elemType = (et, None) ->
    (positive_constant index0 ->
       let running := pointer_at source (unsigned_offset firstIndex et) et in
       GetElementPtr elemType src (index0 :: rest)
       = finish (GetElementPtr_loop rest running elemType false)
       /\ TranslateInstruction (InstGetElementPtr elemType src (index0 :: rest))
          = assign (VariableName (InstGetElementPtr elemType src (index0 :: rest)))
              (finish (GetElementPtr_loop rest running elemType false)))
    /\ (negative_constant index0 \/ non_constant index0 ->
        let running := pointer_at source (signed_offset firstIndex et) et in
        GetElementPtr elemType src (index0 :: rest)
        = finish (GetElementPtr_loop rest running elemType false)
        /\ TranslateInstruction (InstGetElementPtr elemType src (index0 :: rest))
           = assign (VariableName (InstGetElementPtr elemType src (index0 :: rest)))
               (finish (GetElementPtr_loop rest running elemType false))).
Proof.
  intros elemType src pointee index0 rest source firstIndex et
    Hty Heq Hsrc Hidx Het.
  pose proof (GetElementPtr_checked elemType src pointee index0 rest source
                Hty Heq Hsrc) as Hgep.
  split; intros Hclass running; rewrite TranslateInstruction_InstGetElementPtr;
    assert (Hgoal : GetElementPtr elemType src (index0 :: rest)
                    = finish (GetElementPtr_loop rest running elemType false));
    try (split; [exact Hgoal|rewrite Hgoal; reflexivity]);
    rewrite Hgep; subst running.
  - destruct Hclass as (bits & X & -> & Hpos).
    destruct X as [|x|x]; try lia.
    rewrite Hidx, Het. reflexivity.
  - destruct Hclass as [(bits & X & -> & Hneg)|Hnon].
    + destruct X as [|x|x]; try lia.
      rewrite Hidx, Het. reflexivity.
    + destruct index0 as [bits X|t ident]; [elim (Hnon bits X); reflexivity|].
      rewrite Hidx, Het. reflexivity.
Qed.

(** C4. When the type check passes and the base pointer renders, a first
    index that is the constant zero leaves the rendered base pointer as the
    running expression: neither the index nor the element type is rendered,
    and with no further index the text returned is the rendered base pointer
    itself ([TranslateInstruction] assigns it to the result name). *)
Theorem zero_first_index :
  forall elemType src pointee bits source,
    Type_ src = PointerType pointee ->
    Equal pointee elemType = true ->
    FormatValue src = (source, None) ->
    GetElementPtr elemType src [constant_Int bits 0] = Return source None
    /\ TranslateInstruction (InstGetElementPtr elemType src [constant_Int bits 0])
       = Return (VariableName (InstGetElementPtr elemType src [constant_Int bits 0])
                   ++ " = " ++ source) None
    /\ forall rest,
         GetElementPtr elemType src (constant_Int bits 0 :: rest)
         = finish (GetElementPtr_loop rest source elemType false)
         /\ TranslateInstruction
              (InstGetElementPtr elemType src (constant_Int bits 0 :: rest))
            = assign (VariableName
                        (InstGetElementPtr elemType src (constant_Int bits 0 :: rest)))
                (finish (GetElementPtr_loop rest source elemType false)).
Proof.
  intros elemType src pointee bits source Hty Heq Hsrc.
  assert (Hgep : forall rest,
            GetElementPtr elemType src (constant_Int bits 0 :: rest)
            = finish (GetElementPtr_loop rest source elemType false)).
  { intros rest.
    exact (GetElementPtr_checked elemType src pointee (constant_Int bits 0)
             rest source Hty Heq Hsrc). }
  split; [apply Hgep|].
  split.
  - rewrite TranslateInstruction_InstGetElementPtr, Hgep. reflexivity.
  - intros rest. split; [apply Hgep|].
    rewrite TranslateInstruction_InstGetElementPtr, Hgep. reflexivity.
Qed.

(** ** The type check *)

(** C5. When the static type of the base pointer is not a pointer type, or
    is a pointer type whose element type is not equal to the declared element
    type, [GetElementPtr] and the getelementptr case of [TranslateInstruction]
    return the empty text and an error that depends on the types alone:
    whatever the index list is (the empty one included) and whatever the
    renderers would answer. *)
Theorem type_check_first :
  forall elemType src indices,
    (forall pointee,
        Type_ src = PointerType pointee -> Equal pointee elemType = false) ->
    let err :=
      match Type_ src with
      | PointerType _ => "mismatched source and element types"
      | t => "non-pointer source parameter: " ++ Type_String t
      end in
    GetElementPtr elemType src indices = Return "" (Some err)
    /\ TranslateInstruction (InstGetElementPtr elemType src indices)
       = Return "" (Some err).
Proof.
  intros elemType src indices Hcheck err.
  assert (Hgep : GetElementPtr elemType src indices = Return "" (Some err)).
  { unfold GetElementPtr. subst err.
    destruct (Type_ src) as [bits|pointee|len elem|fields| |tname];
      try reflexivity.
    rewrite (Hcheck pointee eq_refl). reflexivity. }
  split; [exact Hgep|].
  rewrite TranslateInstruction_InstGetElementPtr, Hgep. reflexivity.
Qed.

(** ** Indexing a record *)

(** C10 (amended). A step of the aggregate walk on a record type (in either
    copy of the loop): a non-constant index returns an error; a constant
    index [X] selects the field [Fields[X.Int64()]] with no check of its own,
    so the walk goes on with that field's type when [X.Int64()] lies in
    [0, len(Fields)) and panics on the slice access, instead of returning an
    error, when [X.Int64()] does not. For a constant that an int64 holds,
    [X.Int64()] is [X]. *)
Theorem record_index_unchecked :
  forall Fields index rest result takeAddress,
    (non_constant index ->
       GetElementPtr_loop (index :: rest) result (StructType Fields) takeAddress
       = inr (Return "" (Some ("non-constant index into struct: "
                                 ++ Value_String index)))
       /\ TranslateInstruction_loop (index :: rest) result (StructType Fields)
            takeAddress
          = inr (Return "" (Some ("non-constant index into struct: "
                                    ++ Value_String index))))
    /\ (forall bits X,
          index = constant_Int bits X ->
          ((0 <= big.Int64 X < Z.of_nat (length Fields))%Z ->
             exists field,
               nth_error Fields (Z.to_nat (big.Int64 X)) = Some field
               /\ GetElementPtr_loop (index :: rest) result (StructType Fields)
                    takeAddress
                  = GetElementPtr_loop rest (result ++ ".f" ++ string_of_Z X)
                      field true
               /\ TranslateInstruction_loop (index :: rest) result
                    (StructType Fields) takeAddress
                  = TranslateInstruction_loop rest
                      (result ++ ".f" ++ string_of_Z X) field true)
          /\ (~ (0 <= big.Int64 X < Z.of_nat (length Fields))%Z ->
              GetElementPtr_loop (index :: rest) result (StructType Fields)
                takeAddress
              = inr (Panic (big.Int64 X) (length Fields))
              /\ TranslateInstruction_loop (index :: rest) result
                   (StructType Fields) takeAddress
                 = inr (Panic (big.Int64 X) (length Fields)))
          /\ (int64_range X -> big.Int64 X = X)).
Proof.
  intros Fields index rest result takeAddress. split.
  - intros Hnon. destruct index as [bits X|t ident].
    + elim (Hnon bits X); reflexivity.
    + split; reflexivity.
  - intros bits X ->. split; [|split].
    + intros Hin.
      destruct (slice_index_Some _ Fields _ Hin) as (field & Hslice & Hnth).
      exists field. split; [exact Hnth|].
      simpl. rewrite Hslice. split; reflexivity.
    + intros Hout. simpl. rewrite (slice_index_None _ Fields _ Hout).
      split; reflexivity.
    + apply Int64_int64_range.
Qed.

(** ** Binary arithmetic *)

(** For add, and, or, mul and sub: a left operand that does not render gives
    the left-operand error on [X]; a right operand that does not render gives
    the right-operand error, and that error too is formatted from [X]. *)
Lemma binary_operand_errors :
  forall (kind : Value -> Value -> Instruction) X Y,
    In kind [InstAdd; InstAnd; InstOr; InstMul; InstSub] ->
    (forall x err,
        FormatValue X = (x, Some err) ->
        TranslateInstruction (kind X Y)
        = Return "" (Some ("error translating left operand ("
                             ++ Value_String X ++ "): " ++ err)))
    /\ (forall x y err,
          FormatValue X = (x, None) ->
          FormatValue Y = (y, Some err) ->
          TranslateInstruction (kind X Y)
          = Return "" (Some ("error translating right operand ("
                               ++ Value_String X ++ "): " ++ err))).
Proof.
  intros kind X Y Hkind.
  simpl in Hkind.
  destruct Hkind as [<-|[<-|[<-|[<-|[<-|[]]]]]];
    (split;
     [intros x err HX; simpl; rewrite HX; reflexivity
     |intros x y err HX HY; simpl; rewrite HX, HY; reflexivity]).
Qed.

(** ** Shifts and extensions *)


(** C8. Zero-extension and sign-extension to a type that is not an integer
    type return an error. To an integer type of N bits, zero-extension renders
    its source by [FormatUnsigned] and gives "name = intN(uintN(x))";
    sign-extension renders its source by [FormatSigned] and gives
    "name = intN(x)". *)
Theorem zero_and_sign_extension :
  forall From To,
    ((forall BitSize, To <> IntType BitSize) ->
       TranslateInstruction (InstZExt From To)
       = Return "" (Some ("unsupported To type for zext: " ++ GoTypeName To))
       /\ TranslateInstruction (InstSExt From To)
          = Return "" (Some ("unsupported To type for zext: " ++ GoTypeName To)))
    /\ (forall BitSize x,
          To = IntType BitSize ->
          (FormatUnsigned From = (x, None) ->
             TranslateInstruction (InstZExt From To)
             = Return (VariableName (InstZExt From To)
                         ++ " = int" ++ string_of_N BitSize
                         ++ "(uint" ++ string_of_N BitSize
                         ++ "(" ++ x ++ "))") None)
          /\ (FormatSigned From = (x, None) ->
              TranslateInstruction (InstSExt From To)
              = Return (VariableName (InstSExt From To)
                          ++ " = int" ++ string_of_N BitSize
                          ++ "(" ++ x ++ ")") None)).
Proof.
  intros From To. split.
  - intros Hnot. destruct To as [bits|elem|len elem|fields| |tname];
      try (split; reflexivity).
    elim (Hnot bits); reflexivity.
  - intros BitSize x ->. split; intros Hsrc; simpl; rewrite Hsrc; reflexivity.
Qed.

(** ** Calls *)

(** C9. A call whose callee renders as "llvm.lifetime.start" or
    "llvm.lifetime.end" returns the empty text and no error; a call whose
    callee renders as "llvm.objectsize.i64.p0i8" returns "name = -1" and no
    error. Both hold for every argument list and every renderer of
    arguments: no argument is rendered. *)
Theorem call_intrinsics :
  forall Typ Callee Args callee,
    FormatValue Callee = (callee, None) ->
    (callee = "llvm.lifetime.start" \/ callee = "llvm.lifetime.end" ->
       TranslateInstruction (InstCall Typ Callee Args) = Return "" None)
    /\ (callee = "llvm.objectsize.i64.p0i8" ->
        TranslateInstruction (InstCall Typ Callee Args)
        = Return (VariableName (InstCall Typ Callee Args) ++ " = -1") None).
Proof.
  intros Typ Callee Args callee Hcallee.
  split; intros Hname; simpl; rewrite Hcallee.
  - destruct Hname as [-> | ->]; reflexivity.
  - subst callee. reflexivity.
Qed.

End Properties.

(** * Further properties of the two files *)

Section Further.

Context {C : Collaborators}.

(** ** Strings *)

Lemma append_assoc : forall a b c : string, (a ++ b) ++ c = a ++ b ++ c.
Proof.
  induction a as [|x a IH]; intros b c; simpl; [reflexivity|].
  rewrite IH. reflexivity.
Qed.

Lemma append_cons_nonempty :
  forall (a : string) (c : ascii) (b : string), a ++ String c b <> "".
Proof. intros [|x a] c b; discriminate. Qed.

Lemma Equal_Void : forall t, Equal t Void = true <-> t = VoidType.
Proof.
  intros t. destruct t; simpl; split; intros H;
    try discriminate; reflexivity.
Qed.

(** ** The argument loop of a call *)

(** The loop ends normally exactly when every argument renders, with the
    renderings in the order of the arguments. *)
Lemma TranslateInstruction_args_inl :
  forall Args i args,
    TranslateInstruction_args i Args = inl args <-> Forall2 renders Args args.
Proof.
  unfold renders.
  induction Args as [|a Args' IH]; intros i args; simpl.
  - split; intros H.
    + injection H as <-. constructor.
    + inversion H. reflexivity.
  - destruct (FormatValue a) as [v [err|]] eqn:Ha.
    + split; intros H; [discriminate|]. inversion H; subst. congruence.
    + destruct (TranslateInstruction_args (S i) Args') as [args'|o] eqn:Hrest.
      * split; intros H.
        -- injection H as <-. constructor; [exact Ha|].
           apply (IH (S i)). exact Hrest.
        -- inversion H as [|a0 v0 Args0 args0 Hv Hall]; subst.
           apply (IH (S i)) in Hall. rewrite Ha in Hv.
           injection Hv as ->. congruence.
      * split; intros H; [discriminate|].
        inversion H as [|a0 v0 Args0 args0 Hv Hall]; subst.
        apply (IH (S i)) in Hall. congruence.
Qed.

(** The loop is left at the first argument that does not render, with the
    position of that argument (counted from [i]) and its value in the
    error. *)
Lemma TranslateInstruction_args_inr :
  forall Args i o,
    TranslateInstruction_args i Args = inr o ->
    exists k a text err rendered,
      nth_error Args k = Some a
      /\ FormatValue a = (text, Some err)
      /\ Forall2 renders (firstn k Args) rendered
      /\ o = Return "" (Some ("error translating argument "
                                ++ string_of_nat (i + k) ++ " ("
                                ++ Value_String a ++ "): " ++ err)).
Proof.
  induction Args as [|a Args' IH]; intros i o H; simpl in H; [discriminate|].
  destruct (FormatValue a) as [v [err|]] eqn:Ha.
  - injection H as <-. exists 0, a, v, err, [].
    rewrite Nat.add_0_r. repeat split; trivial.
  - destruct (TranslateInstruction_args (S i) Args') as [args'|o'] eqn:Hrest;
      [discriminate|].
    injection H as <-.
    destruct (IH (S i) o' Hrest) as (k & b & text & err & rendered
                                     & Hnth & Hb & Hfirst & ->).
    exists (S k), b, text, err, (v :: rendered).
    replace (i + S k) with (S i + k) by lia.
    repeat split; trivial.
    simpl. constructor; [exact Ha|exact Hfirst].
Qed.

(** ** What a call of either function can return *)

Lemma GetElementPtr_error_text :
  forall elemType src indices text err,
    GetElementPtr elemType src indices = Return text (Some err) -> text = "".
Proof.
  intros elemType src indices text err H.
  unfold GetElementPtr in H.
  destruct (Type_ src) as [bits|pointee|len elem|fields| |tname];
    try (injection H as <- _; reflexivity).
  destruct (negb (Equal pointee elemType)); [injection H as <- _; reflexivity|].
  destruct indices as [|index0 rest]; [discriminate|].
  destruct (FormatValue src) as [source [e|]]; [injection H as <- _; reflexivity|].
  assert (Hwalk : forall running,
            match GetElementPtr_loop rest running elemType false with
            | inl (result, takeAddress) =>
                Return (if takeAddress then "&" ++ result else result) None
            | inr o => o
            end = Return text (Some err) -> text = "").
  { intros running Hw.
    destruct (GetElementPtr_loop rest running elemType false)
      as [[r t]|o] eqn:Hloop; [discriminate|].
    apply GetElementPtr_loop_exit in Hloop. subst o.
    destruct Hloop as [[e He]|[i [n Hp]]]; [|discriminate].
    injection He as <- _. reflexivity. }
  destruct (negb _).
  - destruct (FormatValue index0) as [firstIndex [e|]];
      [injection H as <- _; reflexivity|].
    destruct (TypeSpec elemType) as [et [e|]];
      [injection H as <- _; reflexivity|].
    exact (Hwalk _ H).
  - exact (Hwalk _ H).
Qed.

Ltac split_cases H :=
  repeat match type of H with
         | context [match ?c with _ => _ end] => destruct c eqn:?
         end.

(** X1. Neither function returns a text together with an error: whenever
    the error is set the text is empty. *)
Theorem error_has_no_text :
  (forall inst text err,
      TranslateInstruction inst = Return text (Some err) -> text = "")
  /\ (forall elemType src indices text err,
        GetElementPtr elemType src indices = Return text (Some err) ->
        text = "").
Proof.
  split; [|exact GetElementPtr_error_text].
  intros inst text err H.
  destruct inst.
  6: { rewrite TranslateInstruction_InstGetElementPtr in H. unfold assign in H.
       destruct (GetElementPtr ElemType Src Indices) as [t [e|]|i n] eqn:Hgep;
         try discriminate.
       injection H as <- _. exact (GetElementPtr_error_text _ _ _ _ _ Hgep). }
  5: { simpl in H.
       destruct (FormatValue Callee) as [callee [e|]];
         [injection H as <- _; reflexivity|].
       destruct (_ || _); [discriminate|].
       destruct (callee =? _); [discriminate|].
       destruct (TranslateInstruction_args 0 Args) as [args|o] eqn:Hargs.
       - destruct (Equal _ Void); discriminate.
       - apply TranslateInstruction_args_inr in Hargs.
         destruct Hargs as (k & a & t & e & rendered & _ & _ & _ & ->).
         injection H as <- _. reflexivity. }
  all: simpl in H; split_cases H;
    solve [discriminate | injection H as <- _; reflexivity].
Qed.

(** X2. The only instructions that are elided (empty text, no error) are the
    calls whose callee renders as "llvm.lifetime.start" or
    "llvm.lifetime.end": every other successful translation is a non-empty
    statement. *)
Theorem only_lifetime_hints_are_elided :
  forall inst,
    TranslateInstruction inst = Return "" None ->
    exists Typ Callee Args callee,
      inst = InstCall Typ Callee Args
      /\ FormatValue Callee = (callee, None)
      /\ (callee = "llvm.lifetime.start" \/ callee = "llvm.lifetime.end").
Proof.
  intros inst H.
  assert (Hne : forall (a : string) (c : ascii) (b : string) (e : option error),
            Return (a ++ String c b) None = Return "" e -> False).
  { intros a c b e Heq. injection Heq as Heq _.
    exact (append_cons_nonempty _ _ _ Heq). }
  destruct inst.
  6: { rewrite TranslateInstruction_InstGetElementPtr in H. unfold assign in H.
       destruct (GetElementPtr ElemType Src Indices) as [t [e|]|i n];
         try discriminate.
       simpl in H. elim (Hne _ _ _ _ H). }
  5: { simpl in H.
       destruct (FormatValue Callee) as [callee [e|]] eqn:Hcallee;
         [discriminate|].
       destruct (callee =? "llvm.lifetime.start") eqn:Hstart.
       - apply String.eqb_eq in Hstart. do 3 eexists; exists callee; auto.
       - destruct (callee =? "llvm.lifetime.end") eqn:Hend.
         + apply String.eqb_eq in Hend. do 3 eexists; exists callee; auto.
         + simpl in H.
           destruct (callee =? "llvm.objectsize.i64.p0i8");
             [elim (Hne _ _ _ _ H)|].
           destruct (TranslateInstruction_args 0 Args) as [args|o] eqn:Hargs.
           * destruct (Equal _ Void); simpl in H; elim (Hne _ _ _ _ H).
           * apply TranslateInstruction_args_inr in Hargs.
             destruct Hargs as (k & a & t & e & rendered & _ & _ & _ & ->).
             discriminate. }
  all: simpl in H; split_cases H;
    solve [discriminate | elim (Hne _ _ _ _ H)].
Qed.

(** X3. Outside the getelementptr case [TranslateInstruction] never panics:
    it returns a text or an error. *)
Theorem only_getelementptr_panics :
  forall inst,
    (forall ElemType Src Indices,
        inst <> InstGetElementPtr ElemType Src Indices) ->
    exists text err, TranslateInstruction inst = Return text err.
Proof.
  intros inst Hnot.
  destruct inst.
  6: elim (Hnot ElemType Src Indices); reflexivity.
  5: { simpl.
       destruct (FormatValue Callee) as [callee [e|]]; [eauto|].
       destruct (_ || _); [eauto|].
       destruct (callee =? _); [eauto|].
       destruct (TranslateInstruction_args 0 Args) as [args|o] eqn:Hargs.
       - destruct (Equal _ Void); eauto.
       - apply TranslateInstruction_args_inr in Hargs.
         destruct Hargs as (k & a & t & e & rendered & _ & _ & _ & ->). eauto. }
  all: simpl;
    repeat match goal with
           | |- context [match ?c with _ => _ end] => destruct c
           end; eauto.
Qed.




(** ** Calls *)

(** X5. A call whose callee renders as a name that is none of the three
    intrinsics, and whose arguments all render, is translated to the callee
    applied to the rendered arguments in their order, separated by ", ": as a
    bare statement when the type of the call is void, assigned to the result
    name otherwise. *)
Theorem call_with_arguments :
  forall Typ Callee Args callee args,
    FormatValue Callee = (callee, None) ->
    ~ intrinsic callee ->
    Forall2 renders Args args ->
    (Typ = VoidType ->
       TranslateInstruction (InstCall Typ Callee Args)
       = Return (callee ++ "(" ++ Join args ", " ++ ")") None)
    /\ (Typ <> VoidType ->
        TranslateInstruction (InstCall Typ Callee Args)
        = Return (VariableName (InstCall Typ Callee Args) ++ " = " ++ callee
                    ++ "(" ++ Join args ", " ++ ")") None).
Proof.
  intros Typ Callee Args callee args Hcallee Hnot Hargs.
  assert (Hstart : (callee =? "llvm.lifetime.start") = false).
  { apply String.eqb_neq. intros E. apply Hnot. left. exact E. }
  assert (Hend : (callee =? "llvm.lifetime.end") = false).
  { apply String.eqb_neq. intros E. apply Hnot. right. left. exact E. }
  assert (Hsize : (callee =? "llvm.objectsize.i64.p0i8") = false).
  { apply String.eqb_neq. intros E. apply Hnot. right. right. exact E. }
  apply (TranslateInstruction_args_inl Args 0 args) in Hargs.
  split; intros Hty; simpl; rewrite Hcallee, Hstart, Hend, Hsize, Hargs; simpl.
  - subst Typ. reflexivity.
  - destruct (Equal Typ Void) eqn:Hvoid; [|reflexivity].
    apply Equal_Void in Hvoid. contradiction.
Qed.

(** X6. In a call whose callee renders as a name that is none of the three
    intrinsics, the argument at position [k] that does not render, all the
    arguments before it rendering, makes the translation return the error of
    that argument: its position [k], its value and the error of the
    renderer. No later argument is looked at. *)
Theorem call_first_failing_argument :
  forall Typ Callee Args callee k a text err rendered,
    FormatValue Callee = (callee, None) ->
    ~ intrinsic callee ->
    nth_error Args k = Some a ->
    FormatValue a = (text, Some err) ->
    Forall2 renders (firstn k Args) rendered ->
    TranslateInstruction (InstCall Typ Callee Args)
    = Return "" (Some ("error translating argument " ++ string_of_nat k
                         ++ " (" ++ Value_String a ++ "): " ++ err)).
Proof.
  intros Typ Callee Args callee k a text err rendered
    Hcallee Hnot Hnth Ha Hfirst.
  assert (Hstart : (callee =? "llvm.lifetime.start") = false).
  { apply String.eqb_neq. intros E. apply Hnot. left. exact E. }
  assert (Hend : (callee =? "llvm.lifetime.end") = false).
  { apply String.eqb_neq. intros E. apply Hnot. right. left. exact E. }
  assert (Hsize : (callee =? "llvm.objectsize.i64.p0i8") = false).
  { apply String.eqb_neq. intros E. apply Hnot. right. right. exact E. }
  assert (Hloop : forall Args i k rendered,
            nth_error Args k = Some a ->
            Forall2 renders (firstn k Args) rendered ->
            TranslateInstruction_args i Args
            = inr (Return "" (Some ("error translating argument "
                                      ++ string_of_nat (i + k) ++ " ("
                                      ++ Value_String a ++ "): " ++ err)))).
  { clear Args k rendered Hnth Hfirst.
    induction Args as [|b Args' IH]; intros i k rendered Hnth Hfirst.
    - destruct k; discriminate.
    - destruct k as [|k'].
      + injection Hnth as ->. simpl. rewrite Ha, Nat.add_0_r. reflexivity.
      + simpl in Hnth, Hfirst.
        inversion Hfirst as [|b0 v0 l0 l1 Hb Hrest]; subst.
        unfold renders in Hb. simpl. rewrite Hb.
        rewrite (IH (S i) k' l1 Hnth Hrest).
        replace (S i + k') with (i + S k') by lia. reflexivity. }
  simpl. rewrite Hcallee, Hstart, Hend, Hsize. simpl.
  rewrite (Hloop Args 0 k rendered Hnth Hfirst). reflexivity.
Qed.

(** ** Operands *)

(** X7. When both operands render, each of the five kinds of binary
    arithmetic gives "name = x op y" with the operator of its kind, and the
    left shift gives "name = x << y" with its right operand rendered by
    [FormatUnsigned]. *)
Theorem binary_statements :
  forall X Y x y,
    FormatValue X = (x, None) ->
    (FormatValue Y = (y, None) ->
       forall kind op,
         In (kind, op) binary_table ->
         TranslateInstruction (kind X Y)
         = Return (VariableName (kind X Y) ++ " = " ++ x ++ " " ++ op ++ " "
                     ++ y) None)
    /\ (FormatUnsigned Y = (y, None) ->
        TranslateInstruction (InstShl X Y)
        = Return (VariableName (InstShl X Y) ++ " = " ++ x ++ " << " ++ y)
            None).
Proof.
  intros X Y x y HX. split.
  - intros HY kind op Hin. simpl in Hin.
    destruct Hin as [E|[E|[E|[E|[E|[]]]]]]; injection E as <- <-;
      simpl; rewrite HX, HY; reflexivity.
  - intros HY. simpl. rewrite HX, HY. reflexivity.
Qed.

(** X8. The error of a right operand that does not render is formatted from
    the left operand also in the left shift, the logical shift right and the
    compare with each of its ten predicates: it reads "error translating
    right operand (X): ..." with the value of [inst.X]. *)
Theorem right_operand_error_of_shifts_and_compares :
  forall X Y x y err,
    (FormatValue X = (x, None) ->
     FormatUnsigned Y = (y, Some err) ->
     TranslateInstruction (InstShl X Y)
     = Return "" (Some ("error translating right operand ("
                          ++ Value_String X ++ "): " ++ err)))
    /\ (FormatUnsigned X = (x, None) ->
        FormatUnsigned Y = (y, Some err) ->
        forall Typ,
          TranslateInstruction (InstLShr Typ X Y)
          = Return "" (Some ("error translating right operand ("
                               ++ Value_String X ++ "): " ++ err)))
    /\ (forall Pred op format,
          In (Pred, op, format) icmp_table ->
          format X = (x, None) ->
          format Y = (y, Some err) ->
          TranslateInstruction (InstICmp Pred X Y)
          = Return "" (Some ("error translating right operand ("
                               ++ Value_String X ++ "): " ++ err))).
Proof.
  intros X Y x y err. split; [|split].
  - intros HX HY. simpl. rewrite HX, HY. reflexivity.
  - intros HX HY Typ. simpl. rewrite HX, HY. reflexivity.
  - intros Pred op format Hin HX HY. simpl in Hin.
    repeat (destruct Hin as [E|Hin];
            [injection E as <- <- <-; simpl; rewrite HX, HY; reflexivity|]).
    destruct Hin.
Qed.

(** X9. A compare with one of the ten named predicates renders both operands
    with the renderer of its predicate (the natural one for eq and ne, the
    signed one for the four signed orders, the unsigned one for the four
    unsigned orders) and gives "name = x op y"; a compare with any other
    predicate returns an error without rendering an operand. *)
Theorem compare_statements :
  forall X Y,
    (forall Pred op format x y,
        In (Pred, op, format) icmp_table ->
        format X = (x, None) ->
        format Y = (y, None) ->
        TranslateInstruction (InstICmp Pred X Y)
        = Return (VariableName (InstICmp Pred X Y) ++ " = " ++ x ++ " " ++ op
                    ++ " " ++ y) None)
    /\ (forall Pred,
          (forall op format, ~ In (Pred, op, format) icmp_table) ->
          TranslateInstruction (InstICmp Pred X Y)
          = Return "" (Some ("unsupported comparison predicate: "
                               ++ IPred_String Pred))).
Proof.
  intros X Y. split.
  - intros Pred op format x y Hin HX HY. simpl in Hin.
    repeat (destruct Hin as [E|Hin];
            [injection E as <- <- <-; simpl; rewrite HX, HY; reflexivity|]).
    destruct Hin.
  - intros Pred Hnot.
    destruct Pred; try reflexivity;
      match goal with
      | |- context [InstICmp ?p] =>
          exfalso;
          first [ apply (Hnot "==" FormatValue); simpl; tauto
                | apply (Hnot "!=" FormatValue); simpl; tauto
                | apply (Hnot ">=" FormatSigned); simpl; tauto
                | apply (Hnot ">" FormatSigned); simpl; tauto
                | apply (Hnot "<=" FormatSigned); simpl; tauto
                | apply (Hnot "<" FormatSigned); simpl; tauto
                | apply (Hnot ">=" FormatUnsigned); simpl; tauto
                | apply (Hnot ">" FormatUnsigned); simpl; tauto
                | apply (Hnot "<=" FormatUnsigned); simpl; tauto
                | apply (Hnot "<" FormatUnsigned); simpl; tauto ]
      end.
Qed.

(** ** The aggregate walk *)

(** X10. The aggregate walk only appends to the running expression, and what
    it appends does not depend on that expression: a walk that ends normally
    from one running expression ends normally from every other, with the same
    suffix; a walk that is left on an error or a panic is left on the same
    one from every running expression. *)
Theorem walk_appends_a_suffix :
  forall indices currentType,
    (forall result takeAddress result' takeAddress',
        GetElementPtr_loop indices result currentType takeAddress
        = inl (result', takeAddress') ->
        exists suffix,
          result' = result ++ suffix
          /\ forall other flag,
               GetElementPtr_loop indices other currentType flag
               = inl (other ++ suffix,
                      match indices with [] => flag | _ :: _ => true end))
    /\ (forall result takeAddress o,
          GetElementPtr_loop indices result currentType takeAddress = inr o ->
          forall other flag,
            GetElementPtr_loop indices other currentType flag = inr o).
Proof.
  assert (Hnil : forall a : string, a = a ++ "").
  { induction a as [|c a IH]; simpl; [reflexivity|]. rewrite <- IH. reflexivity. }
  induction indices as [|index indices' IH]; intros currentType.
  - split.
    + intros result takeAddress result' takeAddress' H.
      injection H as <- _. exists "". split; [apply Hnil|].
      intros other flag. simpl. rewrite <- Hnil. reflexivity.
    + intros result takeAddress o H. discriminate.
  - assert (Hflag : match indices' with [] => true | _ :: _ => true end = true).
    { destruct indices'; reflexivity. }
    split.
    + intros result takeAddress result' takeAddress' H.
      destruct currentType as [bits|elem|len elem|fields| |tname];
        simpl in H; try discriminate.
      * destruct (FormatValue index) as [v [err|]] eqn:Hv; [discriminate|].
        destruct (proj1 (IH elem) _ _ _ _ H) as (suffix & -> & Hother).
        exists (("[" ++ v ++ "]") ++ suffix).
        split; [rewrite <- append_assoc; reflexivity|].
        intros other flag. simpl GetElementPtr_loop. rewrite Hv.
        rewrite Hother, Hflag, append_assoc. reflexivity.
      * destruct index as [bits X|t ident]; [|discriminate].
        destruct (slice_index fields (big.Int64 X)) as [field|] eqn:Hfield;
          [|discriminate].
        destruct (proj1 (IH field) _ _ _ _ H) as (suffix & -> & Hother).
        exists ((".f" ++ string_of_Z X) ++ suffix).
        split; [rewrite <- append_assoc; reflexivity|].
        intros other flag. simpl GetElementPtr_loop. rewrite Hfield.
        rewrite Hother, Hflag, append_assoc. reflexivity.
    + intros result takeAddress o H other flag.
      destruct currentType as [bits|elem|len elem|fields| |tname];
        simpl in H |- *; try exact H.
      * destruct (FormatValue index) as [v [err|]]; [exact H|].
        exact (proj2 (IH elem) _ _ _ H _ _).
      * destruct index as [bits X|t ident]; [|exact H].
        destruct (slice_index fields (big.Int64 X)) as [field|]; [|exact H].
        exact (proj2 (IH field) _ _ _ H _ _).
Qed.

(** Through nested arrays every index that renders is accepted, constant or
    not and whatever its value, each adding its subscript. *)
Lemma GetElementPtr_loop_arrays :
  forall indices vs result currentType takeAddress,
    Forall2 renders indices vs ->
    length indices <= array_depth currentType ->
    GetElementPtr_loop indices result currentType takeAddress
    = inl (result ++ subscripts vs,
           match indices with [] => takeAddress | _ :: _ => true end).
Proof.
  assert (Hnil : forall a : string, a = a ++ "").
  { induction a as [|c a IH]; simpl; [reflexivity|]. rewrite <- IH. reflexivity. }
  induction indices as [|index indices' IH];
    intros vs result currentType takeAddress Hall Hdepth.
  - inversion Hall; subst. simpl. rewrite <- Hnil. reflexivity.
  - inversion Hall as [|i0 v l0 vs' Hv Hrest]; subst.
    destruct currentType as [bits|elem|len elem|fields| |tname];
      simpl in Hdepth; try lia.
    unfold renders in Hv. simpl GetElementPtr_loop. rewrite Hv.
    rewrite (IH vs' _ elem true Hrest) by lia.
    simpl subscripts.
    replace (match indices' with [] => true | _ :: _ => true end) with true
      by (destruct indices'; reflexivity).
    repeat (rewrite append_assoc; simpl). reflexivity.
Qed.

(** X11. With the type check passed, the base pointer rendered and a
    constant-zero first index, further indices into an element type that
    nests at least that many arrays need only render: no index is compared
    with the length of an array, and the result is "&" followed by the base
    pointer and one subscript per index ([TranslateInstruction] assigns it to
    the result name). *)
Theorem array_indices_are_subscripts :
  forall elemType src pointee bits source index rest vs,
    Type_ src = PointerType pointee ->
    Equal pointee elemType = true ->
    FormatValue src = (source, None) ->
    Forall2 renders (index :: rest) vs ->
    length (index :: rest) <= array_depth elemType ->
    GetElementPtr elemType src (constant_Int bits 0 :: index :: rest)
    = Return ("&" ++ source ++ subscripts vs) None
    /\ TranslateInstruction
         (InstGetElementPtr elemType src (constant_Int bits 0 :: index :: rest))
       = Return (VariableName
                   (InstGetElementPtr elemType src
                      (constant_Int bits 0 :: index :: rest))
                   ++ " = &" ++ source ++ subscripts vs) None.
Proof.
  intros elemType src pointee bits source index rest vs
    Hty Heq Hsrc Hall Hdepth.
  assert (Hgep : GetElementPtr elemType src (constant_Int bits 0 :: index :: rest)
                 = Return ("&" ++ source ++ subscripts vs) None).
  { rewrite (GetElementPtr_checked _ _ _ _ _ _ Hty Heq Hsrc).
    rewrite (GetElementPtr_loop_arrays _ vs source elemType false Hall Hdepth).
    reflexivity. }
  split; [exact Hgep|].
  rewrite TranslateInstruction_InstGetElementPtr, Hgep. reflexivity.
Qed.

(** X12. An element type that is neither an array nor a record cannot be
    indexed into: with two indices or more, both functions return an error
    (never a text, never a panic), whatever the values and the renderers
    are. *)
Theorem scalar_element_type_is_not_indexed :
  forall elemType src index0 index1 rest,
    ~ aggregate elemType ->
    exists err,
      GetElementPtr elemType src (index0 :: index1 :: rest)
      = Return "" (Some err)
      /\ TranslateInstruction
           (InstGetElementPtr elemType src (index0 :: index1 :: rest))
         = Return "" (Some err).
Proof.
  intros elemType src index0 index1 rest Hscalar.
  assert (Hgep : exists err,
            GetElementPtr elemType src (index0 :: index1 :: rest)
            = Return "" (Some err)).
  { assert (Hloop : forall running,
              GetElementPtr_loop (index1 :: rest) running elemType false
              = inr (Return "" (Some ("unsupported type to index into: "
                                        ++ Type_String elemType)))).
    { intros running.
      destruct elemType as [bits|elem|len elem|fields| |tname];
        try reflexivity; elim Hscalar; exact I. }
    unfold GetElementPtr.
    destruct (Type_ src) as [bits|pointee|len elem|fields| |tname]; eauto.
    destruct (negb (Equal pointee elemType)); eauto.
    destruct (FormatValue src) as [source [e|]]; eauto.
    destruct (negb _).
    - destruct (FormatValue index0) as [firstIndex [e|]]; eauto.
      destruct (TypeSpec elemType) as [et [e|]]; eauto.
      rewrite Hloop. eauto.
    - rewrite Hloop. eauto. }
  destruct Hgep as [err Hgep]. exists err. split; [exact Hgep|].
  rewrite TranslateInstruction_InstGetElementPtr, Hgep. reflexivity.
Qed.

(** X13. With the type check passed, the base pointer rendered and a
    constant-zero first index, a constant second index [K] that an int64
    holds and that lies within the fields of a record element type gives
    "&" followed by the base pointer and ".f" with [K] in decimal. *)
Theorem record_field_address :
  forall Fields src pointee bits bits' K source,
    Type_ src = PointerType pointee ->
    Equal pointee (StructType Fields) = true ->
    FormatValue src = (source, None) ->
    int64_range K ->
    (0 <= K < Z.of_nat (length Fields))%Z ->
    GetElementPtr (StructType Fields) src
      [constant_Int bits 0; constant_Int bits' K]
    = Return ("&" ++ source ++ ".f" ++ string_of_Z K) None
    /\ TranslateInstruction
         (InstGetElementPtr (StructType Fields) src
            [constant_Int bits 0; constant_Int bits' K])
       = Return (VariableName
                   (InstGetElementPtr (StructType Fields) src
                      [constant_Int bits 0; constant_Int bits' K])
                   ++ " = &" ++ source ++ ".f" ++ string_of_Z K) None.
Proof.
  intros Fields src pointee bits bits' K source Hty Heq Hsrc Hrange Hin.
  assert (Hgep : GetElementPtr (StructType Fields) src
                   [constant_Int bits 0; constant_Int bits' K]
                 = Return ("&" ++ source ++ ".f" ++ string_of_Z K) None).
  { rewrite (GetElementPtr_checked _ _ _ _ _ _ Hty Heq Hsrc).
    simpl GetElementPtr_loop. rewrite (Int64_int64_range K Hrange).
    destruct (slice_index_Some _ Fields K Hin) as (field & -> & _).
    reflexivity. }
  split; [exact Hgep|].
  rewrite TranslateInstruction_InstGetElementPtr, Hgep. reflexivity.
Qed.

(** ** Allocation *)

(** X14. An alloca renders its element type first: when the type does not
    render, the error is that of the type, whether or not there is an element
    count. When the type renders as [t], an alloca with no count gives
    "name = new(t)" and an alloca with a count that renders as [n] gives
    "name = &make([]t, n)[0]". *)
Theorem alloca_statements :
  forall ElemType,
    (forall text err NElems,
        TypeSpec ElemType = (text, Some err) ->
        TranslateInstruction (InstAlloca ElemType NElems)
        = Return "" (Some ("error translating type ("
                             ++ Type_String ElemType ++ "): " ++ err)))
    /\ (forall t,
          TypeSpec ElemType = (t, None) ->
          TranslateInstruction (InstAlloca ElemType None)
          = Return (VariableName (InstAlloca ElemType None)
                      ++ " = new(" ++ t ++ ")") None
          /\ forall count n,
               FormatValue count = (n, None) ->
               TranslateInstruction (InstAlloca ElemType (Some count))
               = Return (VariableName (InstAlloca ElemType (Some count))
                           ++ " = &make([]" ++ t ++ ", " ++ n ++ ")[0]") None).
Proof.
  intros ElemType. split.
  - intros text err NElems Hty. simpl. rewrite Hty. reflexivity.
  - intros t Hty. split.
    + simpl. rewrite Hty. reflexivity.
    + intros count n Hcount. simpl. rewrite Hty, Hcount. reflexivity.
Qed.

End Further.

(** * The translation on concrete inputs *)

Import Sample.

(** C2 (counterexample). On the array [[4 x i32]] behind [p] with indices
    0 and 1, [GetElementPtr] returns "&p[1]", while the resolver of the
    specification returns the expression "p[1]" and the flag: the text that
    [GetElementPtr] returns is not the expression of the specification's
    pair. *)
Lemma GetElementPtr_is_not_spec_resolve :
  GetElementPtr array4 p_array [constant_Int 64 0; constant_Int 64 1]
  = Return "&p[1]" None
  /\ spec_resolve array4 p_array [constant_Int 64 0; constant_Int 64 1]
     = Some ("p[1]", true)
  /\ ~ (forall (C : Collaborators) elemType src indices text,
          GetElementPtr elemType src indices = Return text None ->
          exists needs_address_of,
            spec_resolve elemType src indices = Some (text, needs_address_of)).
Proof.
  split; [reflexivity|]. split; [reflexivity|].
  intros Hclaim.
  destruct (Hclaim Sample.collaborators array4 p_array
              [constant_Int 64 0; constant_Int 64 1] "&p[1]" eq_refl)
    as [needs Hspec].
  vm_compute in Hspec. discriminate Hspec.
Qed.

Lemma GetElementPtr_applies_address_of_witness :
  exists index0 rest source running expression,
    [constant_Int 64 0; constant_Int 64 1] = index0 :: rest
    /\ FormatValue p_array = (source, None)
    /\ (running = source
        \/ exists firstIndex et,
             FormatValue index0 = (firstIndex, None)
             /\ TypeSpec array4 = (et, None)
             /\ (running = pointer_at source (unsigned_offset firstIndex et) et
                 \/ running = pointer_at source (signed_offset firstIndex et) et))
    /\ GetElementPtr_loop rest running array4 false
       = inl (expression, match rest with [] => false | _ :: _ => true end)
    /\ "&p[1]" = match rest with
                 | [] => running
                 | _ :: _ => "&" ++ expression
                 end.
Proof.
  exact (GetElementPtr_applies_address_of array4 p_array
           [constant_Int 64 0; constant_Int 64 1] "&p[1]" eq_refl).
Defined.

Lemma first_index_offset_witness :
  GetElementPtr array4 p_array [constant_Int 64 3; reg_x]
  = Return "&(*[4]int32)(unsafe.Pointer(uintptr(unsafe.Pointer(p)) + 3 * unsafe.Sizeof(*(*[4]int32)(nil))))[x]" None
  /\ GetElementPtr array4 p_array [constant_Int 64 (-3)]
     = Return "(*[4]int32)(unsafe.Pointer(uintptr(unsafe.Pointer(p)) + uintptr(int64(-3)) * unsafe.Sizeof(*(*[4]int32)(nil))))" None
  /\ TranslateInstruction (InstGetElementPtr array4 p_array [reg_y])
     = Return "v1 = (*[4]int32)(unsafe.Pointer(uintptr(unsafe.Pointer(p)) + uintptr(int64(y)) * unsafe.Sizeof(*(*[4]int32)(nil))))" None.
Proof.
  split; [|split].
  - refine (proj1 (proj1 (first_index_offset array4 p_array array4
                            (constant_Int 64 3) [reg_x] "p" "3" "[4]int32"
                            eq_refl eq_refl eq_refl eq_refl eq_refl) _)).
    exists 64%N, 3%Z. split; [reflexivity|lia].
  - refine (proj1 (proj2 (first_index_offset array4 p_array array4
                            (constant_Int 64 (-3)) [] "p" "-3" "[4]int32"
                            eq_refl eq_refl eq_refl eq_refl eq_refl) _)).
    left. exists 64%N, (-3)%Z. split; [reflexivity|lia].
  - refine (proj2 (proj2 (first_index_offset array4 p_array array4
                            reg_y [] "p" "y" "[4]int32"
                            eq_refl eq_refl eq_refl eq_refl eq_refl) _)).
    right. intros bits X H. discriminate H.
Defined.

Lemma zero_first_index_witness :
  GetElementPtr array4 p_array [constant_Int 64 0] = Return "p" None
  /\ TranslateInstruction (InstGetElementPtr array4 p_array [constant_Int 64 0])
     = Return "v1 = p" None.
Proof.
  pose proof (zero_first_index array4 p_array array4 64 "p"
                eq_refl eq_refl eq_refl) as [Hgep [Hinst _]].
  split; [exact Hgep|exact Hinst].
Defined.

Lemma type_check_first_witness :
  GetElementPtr i32 p_i8 [] = Return "" (Some "mismatched source and element types")
  /\ TranslateInstruction (InstGetElementPtr i32 p_i8 [vec_y])
     = Return "" (Some "mismatched source and element types").
Proof.
  assert (Hcheck : forall pointee,
            Type_ p_i8 = PointerType pointee -> Equal pointee i32 = false).
  { intros pointee H. injection H as <-. reflexivity. }
  split.
  - exact (proj1 (type_check_first i32 p_i8 [] Hcheck)).
  - exact (proj2 (type_check_first i32 p_i8 [vec_y] Hcheck)).
Defined.

(** C6 (the code on the failing input). With a left operand [%x] that
    renders and a right operand [%y] that does not, each of add, and, or, mul
    and sub returns the right-operand error with the left operand [%x] in
    it. *)
Theorem right_operand_error_prints_left_operand :
  let failure :=
    Return "" (Some "error translating right operand (%x): unsupported value") in
  Value_String reg_x = "%x"
  /\ Value_String vec_y = "%y"
  /\ FormatValue reg_x = ("x", None)
  /\ FormatValue vec_y = ("", Some "unsupported value")
  /\ TranslateInstruction (InstAdd reg_x vec_y) = failure
  /\ TranslateInstruction (InstAnd reg_x vec_y) = failure
  /\ TranslateInstruction (InstOr reg_x vec_y) = failure
  /\ TranslateInstruction (InstMul reg_x vec_y) = failure
  /\ TranslateInstruction (InstSub reg_x vec_y) = failure.
Proof.
  intros failure.
  assert (Hkind : forall kind,
            In kind [InstAdd; InstAnd; InstOr; InstMul; InstSub] ->
            TranslateInstruction (kind reg_x vec_y) = failure).
  { intros kind Hin.
    exact (proj2 (binary_operand_errors kind reg_x vec_y Hin)
             "x" "" "unsupported value" eq_refl eq_refl). }
  repeat (split; [reflexivity|]).
  repeat split; apply Hkind; simpl; auto 10.
Qed.


Lemma zero_and_sign_extension_witness :
  TranslateInstruction (InstZExt reg_x (IntType 64))
  = Return "v1 = int64(uint64(uint64(x)))" None
  /\ TranslateInstruction (InstSExt reg_x (IntType 64))
     = Return "v1 = int64(int64(x))" None
  /\ TranslateInstruction (InstZExt reg_x vector)
     = Return "" (Some "unsupported To type for zext: *types.VectorType").
Proof.
  split; [|split].
  - exact (proj1 (proj2 (zero_and_sign_extension reg_x (IntType 64))
                    64%N "uint64(x)" eq_refl) eq_refl).
  - exact (proj2 (proj2 (zero_and_sign_extension reg_x (IntType 64))
                    64%N "int64(x)" eq_refl) eq_refl).
  - refine (proj1 (proj1 (zero_and_sign_extension reg_x vector) _)).
    intros BitSize H. discriminate H.
Defined.

Lemma call_intrinsics_witness :
  TranslateInstruction (InstCall VoidType lifetime_start [vec_y; reg_x])
  = Return "" None
  /\ TranslateInstruction (InstCall (IntType 64) objectsize [vec_y])
     = Return "v1 = -1" None.
Proof.
  split.
  - refine (proj1 (call_intrinsics VoidType lifetime_start [vec_y; reg_x]
                     "llvm.lifetime.start" eq_refl) _).
    left. reflexivity.
  - refine (proj2 (call_intrinsics (IntType 64) objectsize [vec_y]
                     "llvm.objectsize.i64.p0i8" eq_refl) _).
    reflexivity.
Defined.

Lemma record_index_unchecked_witness :
  GetElementPtr_loop [constant_Int 32 2] "p" pair false = inr (Panic 2 2)
  /\ GetElementPtr_loop [constant_Int 32 (-1)] "p" pair false = inr (Panic (-1) 2)
  /\ GetElementPtr_loop [constant_Int 32 1] "p" pair false = inl ("p.f1", true)
  /\ GetElementPtr_loop [reg_x] "p" pair false
     = inr (Return "" (Some "non-constant index into struct: %x")).
Proof.
  split; [|split; [|split]].
  - refine (proj1 (proj1 (proj2 (proj2 (record_index_unchecked [i8; i32]
              (constant_Int 32 2) [] "p" false) 32%N 2%Z eq_refl)) _)).
    vm_compute. intros [_ H]. discriminate H.
  - refine (proj1 (proj1 (proj2 (proj2 (record_index_unchecked [i8; i32]
              (constant_Int 32 (-1)) [] "p" false) 32%N (-1)%Z eq_refl)) _)).
    vm_compute. intros [H _]. apply H. reflexivity.
  - destruct (proj1 (proj2 (record_index_unchecked [i8; i32]
              (constant_Int 32 1) [] "p" false) 32%N 1%Z eq_refl))
      as (field & Hnth & Hloop & _).
    + vm_compute. split; [discriminate|reflexivity].
    + vm_compute in Hnth. injection Hnth as <-. exact Hloop.
  - refine (proj1 (proj1 (record_index_unchecked [i8; i32] reg_x [] "p" false) _)).
    intros bits X H. discriminate H.
Defined.

(** C10 (counterexample). The constant 2^64 + 1 is outside the two fields of
    the record [{ i8, i32 }], yet its [Int64()] is 1: both functions select
    field 1 and return its address, with neither a panic nor an error. So a
    constant index out of [0, len(Fields)) does not always lead to an
    out-of-bounds access. *)
Lemma record_index_beyond_int64 :
  ~ (0 <= 18446744073709551617 < Z.of_nat (length [i8; i32]))%Z
  /\ big.Int64 18446744073709551617 = 1%Z
  /\ GetElementPtr pair p_pair
       [constant_Int 64 0; constant_Int 128 18446744073709551617]
     = Return "&p.f18446744073709551617" None
  /\ TranslateInstruction
       (InstGetElementPtr pair p_pair
          [constant_Int 64 0; constant_Int 128 18446744073709551617])
     = Return "v1 = &p.f18446744073709551617" None
  /\ ~ (forall (C : Collaborators) Fields bits X rest result takeAddress,
          ~ (0 <= X < Z.of_nat (length Fields))%Z ->
          exists i n,
            GetElementPtr_loop (constant_Int bits X :: rest) result
              (StructType Fields) takeAddress
            = inr (Panic i n)).
Proof.
  split; [simpl; lia|].
  split; [reflexivity|].
  split; [reflexivity|].
  split; [reflexivity|].
  intros Hclaim.
  destruct (Hclaim Sample.collaborators [i8; i32] 128%N
              18446744073709551617%Z [] "p" false)
    as (i & n & Hpanic).
  - simpl. lia.
  - vm_compute in Hpanic. discriminate Hpanic.
Qed.

(** The same out-of-range index through the two functions. *)
Example GetElementPtr_record_out_of_range :
  GetElementPtr pair p_pair [constant_Int 64 0; constant_Int 32 2] = Panic 2 2
  /\ TranslateInstruction
       (InstGetElementPtr pair p_pair [constant_Int 64 0; constant_Int 32 2])
     = Panic 2 2.
Proof. split; reflexivity. Qed.

Example GetElementPtr_record_field :
  GetElementPtr pair p_pair [constant_Int 64 0; constant_Int 32 1]
  = Return "&p.f1" None.
Proof. reflexivity. Qed.

Example string_of_N_32 : string_of_N 32 = "32".
Proof. reflexivity. Qed.

Example Int64_wraps :
  big.Int64 (2 ^ 64) = 0%Z /\ big.Int64 (2 ^ 63) = (- 2 ^ 63)%Z
  /\ big.Int64 (-1) = (-1)%Z.
Proof. repeat split. Qed.

(** * The further properties on concrete inputs *)

Lemma error_has_no_text_witness :
  (TranslateInstruction (InstLoad vec_y)
   = Return "" (Some "error translating source (%y): unsupported value")
   /\ GetElementPtr i32 p_i8 [constant_Int 64 0]
      = Return "" (Some "mismatched source and element types"))
  /\ "" = "" /\ "" = "".
Proof.
  split; [split; reflexivity|].
  split.
  - exact (proj1 error_has_no_text (InstLoad vec_y) ""
             "error translating source (%y): unsupported value" eq_refl).
  - exact (proj2 error_has_no_text i32 p_i8 [constant_Int 64 0] ""
             "mismatched source and element types" eq_refl).
Defined.

Lemma only_lifetime_hints_are_elided_witness :
  exists Typ Callee Args callee,
    InstCall VoidType lifetime_start [vec_y] = InstCall Typ Callee Args
    /\ FormatValue Callee = (callee, None)
    /\ (callee = "llvm.lifetime.start" \/ callee = "llvm.lifetime.end").
Proof.
  exact (only_lifetime_hints_are_elided
           (InstCall VoidType lifetime_start [vec_y]) eq_refl).
Defined.

Lemma only_getelementptr_panics_witness :
  exists text err,
    TranslateInstruction (InstSelect vec_y reg_x reg_y) = Return text err.
Proof.
  apply only_getelementptr_panics.
  intros ElemType Src Indices H. discriminate H.
Defined.


Lemma call_with_arguments_witness :
  TranslateInstruction (InstCall VoidType callee_f [reg_x; constant_Int 8 5])
  = Return "f(x, 5)" None
  /\ TranslateInstruction (InstCall i32 callee_f [reg_x; constant_Int 8 5])
     = Return "v1 = f(x, 5)" None.
Proof.
  assert (Hnot : ~ intrinsic "f").
  { intros [H|[H|H]]; discriminate H. }
  assert (Hargs : Forall2 renders [reg_x; constant_Int 8 5] ["x"; "5"]).
  { repeat constructor. }
  split.
  - exact (proj1 (call_with_arguments VoidType callee_f
                    [reg_x; constant_Int 8 5] "f" ["x"; "5"]
                    eq_refl Hnot Hargs) eq_refl).
  - refine (proj2 (call_with_arguments i32 callee_f
                     [reg_x; constant_Int 8 5] "f" ["x"; "5"]
                     eq_refl Hnot Hargs) _).
    intros H. discriminate H.
Defined.

Lemma call_first_failing_argument_witness :
  TranslateInstruction (InstCall i32 callee_f [reg_x; vec_y; vec_y])
  = Return "" (Some "error translating argument 1 (%y): unsupported value").
Proof.
  refine (call_first_failing_argument i32 callee_f [reg_x; vec_y; vec_y]
            "f" 1 vec_y "" "unsupported value" ["x"]
            eq_refl _ eq_refl eq_refl _).
  - intros [H|[H|H]]; discriminate H.
  - repeat constructor.
Defined.

Lemma binary_statements_witness :
  TranslateInstruction (InstSub reg_x reg_y) = Return "v1 = x - y" None
  /\ TranslateInstruction (InstShl reg_x reg_y)
     = Return "v1 = x << uint64(y)" None.
Proof.
  split.
  - refine (proj1 (binary_statements reg_x reg_y "x" "y" eq_refl)
              eq_refl InstSub "-" _).
    simpl. tauto.
  - exact (proj2 (binary_statements reg_x reg_y "x" "uint64(y)" eq_refl)
             eq_refl).
Defined.

Lemma right_operand_error_of_shifts_and_compares_witness :
  TranslateInstruction (InstShl reg_x vec_y)
  = Return "" (Some "error translating right operand (%x): unsupported value")
  /\ TranslateInstruction (InstLShr i32 reg_x vec_y)
     = Return "" (Some "error translating right operand (%x): unsupported value")
  /\ TranslateInstruction (InstICmp IPredSLT reg_x vec_y)
     = Return "" (Some "error translating right operand (%x): unsupported value").
Proof.
  split; [|split].
  - exact (proj1 (right_operand_error_of_shifts_and_compares
                    reg_x vec_y "x" "" "unsupported value") eq_refl eq_refl).
  - exact (proj1 (proj2 (right_operand_error_of_shifts_and_compares
                           reg_x vec_y "uint64(x)" "" "unsupported value"))
             eq_refl eq_refl i32).
  - refine (proj2 (proj2 (right_operand_error_of_shifts_and_compares
                            reg_x vec_y "int64(x)" "" "unsupported value"))
              IPredSLT "<" FormatSigned _ eq_refl eq_refl).
    simpl. tauto.
Defined.

Lemma compare_statements_witness :
  TranslateInstruction (InstICmp IPredULT reg_x reg_y)
  = Return "v1 = uint64(x) < uint64(y)" None
  /\ TranslateInstruction (InstICmp (IPredUnknown 42) vec_y vec_y)
     = Return "" (Some "unsupported comparison predicate: IPred").
Proof.
  split.
  - refine (proj1 (compare_statements reg_x reg_y) IPredULT "<" FormatUnsigned
              "uint64(x)" "uint64(y)" _ eq_refl eq_refl).
    simpl. tauto.
  - refine (proj2 (compare_statements vec_y vec_y) (IPredUnknown 42) _).
    intros op format Hin. simpl in Hin.
    repeat (destruct Hin as [E|Hin]; [discriminate E|]). exact Hin.
Defined.

Lemma walk_appends_a_suffix_witness :
  (exists suffix,
      "p.f1[x]" = "p" ++ suffix
      /\ forall other flag,
           GetElementPtr_loop [constant_Int 32 1; reg_x] other
             record_with_array flag
           = inl (other ++ suffix, true))
  /\ (forall other flag,
        GetElementPtr_loop [constant_Int 32 1; vec_y] other
          record_with_array flag
        = inr (Return "" (Some "error translating index (%y): unsupported value"))).
Proof.
  split.
  - exact (proj1 (walk_appends_a_suffix [constant_Int 32 1; reg_x]
                    record_with_array) "p" false "p.f1[x]" true eq_refl).
  - exact (proj2 (walk_appends_a_suffix [constant_Int 32 1; vec_y]
                    record_with_array) "p" false _ eq_refl).
Defined.

Lemma array_indices_are_subscripts_witness :
  GetElementPtr array2x4 (other (PointerType array2x4) "p")
    [constant_Int 64 0; reg_x; constant_Int 32 7]
  = Return "&p[x][7]" None
  /\ TranslateInstruction
       (InstGetElementPtr array2x4 (other (PointerType array2x4) "p")
          [constant_Int 64 0; reg_x; constant_Int 32 7])
     = Return "v1 = &p[x][7]" None.
Proof.
  refine (array_indices_are_subscripts array2x4
            (other (PointerType array2x4) "p") array2x4 64 "p"
            reg_x [constant_Int 32 7] ["x"; "7"]
            eq_refl eq_refl eq_refl _ _).
  - repeat constructor.
  - simpl. lia.
Defined.

Lemma scalar_element_type_is_not_indexed_witness :
  exists err,
    GetElementPtr i8 p_i8 [constant_Int 64 0; constant_Int 64 0]
    = Return "" (Some err)
    /\ TranslateInstruction
         (InstGetElementPtr i8 p_i8 [constant_Int 64 0; constant_Int 64 0])
       = Return "" (Some err).
Proof.
  apply scalar_element_type_is_not_indexed.
  simpl. intros H. exact H.
Defined.

Lemma record_field_address_witness :
  GetElementPtr pair p_pair [constant_Int 64 0; constant_Int 32 1]
  = Return "&p.f1" None
  /\ TranslateInstruction
       (InstGetElementPtr pair p_pair [constant_Int 64 0; constant_Int 32 1])
     = Return "v1 = &p.f1" None.
Proof.
  refine (record_field_address [i8; i32] p_pair pair 64 32 1 "p"
            eq_refl eq_refl eq_refl _ _).
  - unfold int64_range. simpl. lia.
  - simpl. lia.
Defined.

Lemma alloca_statements_witness :
  TranslateInstruction (InstAlloca pair (Some vec_y))
  = Return "" (Some "error translating type (*types.StructType): unsupported type")
  /\ TranslateInstruction (InstAlloca i32 None) = Return "v1 = new(int32)" None
  /\ TranslateInstruction (InstAlloca i32 (Some (constant_Int 64 10)))
     = Return "v1 = &make([]int32, 10)[0]" None.
Proof.
  split; [|split].
  - exact (proj1 (alloca_statements pair) "" "unsupported type" (Some vec_y)
             eq_refl).
  - exact (proj1 (proj2 (alloca_statements i32) "int32" eq_refl)).
  - exact (proj2 (proj2 (alloca_statements i32) "int32" eq_refl)
             (constant_Int 64 10) "10" eq_refl).
Defined.
